(** * psutil/arch/bsd/freebsd.c: process list, command line and liveness

    A shallow embedding of the four C functions of [freebsd.c]:
    [psutil_get_proc_list], [psutil_get_cmd_args], [psutil_get_cmdline]
    and [psutil_pid_exists].  The kernel ([sysctl], [kill]), the allocator
    ([malloc], [free]) and the Python runtime are the environment: their
    answers are oracles, their effects are recorded in an explicit world
    that every function threads through. *)

From Stdlib Require Import ZArith NArith Lia List.
From Stdlib Require Import Strings.Byte Strings.String.
From stdpp Require Import gmap.

Import ListNotations.

(** ** C integer types *)

Module C.

(** Conversion of a mathematical integer to a 32-bit [int] (also [pid_t]):
    the value wraps around modulo 2^32 into [-2^31, 2^31). *)
Definition to_int (z : Z) : Z := ((z + 2 ^ 31) mod 2 ^ 32 - 2 ^ 31)%Z.

(** Conversion of a signed integer to [size_t] (64 bits, unsigned). *)
Definition to_size_t (z : Z) : N := Z.to_N (z mod 2 ^ 64)%Z.

End C.

(** ** The platform: constants of the system headers

    [errno.h] and [sys/user.h] are not part of this file.  The C standard
    makes the error numbers positive [int]s, and a structure has a positive
    size; nothing else is assumed of them. *)

Class Platform := {
  ESRCH : positive;
  EPERM : positive;
  ENOMEM : positive;
  sizeof_kinfo_proc : positive;
}.

(** The values of FreeBSD on amd64, for the examples. *)
Definition freebsd_amd64 : Platform :=
  {| ESRCH := 3; EPERM := 1; ENOMEM := 12; sizeof_kinfo_proc := 1088 |}.

(** ** The environment *)

(** A pointer returned by [malloc]: [None] is [NULL], [Some l] the block [l]. *)
Abbreviation pointer := (option positive).

(** A Python [str] object, by its bytes. *)
Abbreviation pystr := (list byte).

(** What [kill] answers. *)
Inductive kill_reply :=
| KillOk
| KillErr (e : positive).

(** What [sysctl] answers for [KERN_PROC_PROC]: whether it failed, and the
    value it leaves in the length field. *)
Record proc_list_reply := ProcListReply {
  pl_error : option positive;
  pl_length : N;
}.

(** What [sysctl] answers for a value ([KERN_ARGMAX], an [int]) or for a
    byte blob ([KERN_PROC_ARGS]). *)
Inductive sysctl_reply (A : Type) :=
| SysctlOk (a : A)
| SysctlErr (e : positive).
Arguments SysctlOk {A} a.
Arguments SysctlErr {A} e.

(** The oracles.  Each takes the time of the call (the number of earlier
    calls into the environment), so that two identical calls may be answered
    differently: the process table changes under the caller. *)
Record environment := Environment {
  (** [kill(pid, 0)] *)
  env_kill : nat -> Z -> kill_reply;
  (** [sysctl({CTL_KERN, KERN_PROC, KERN_PROC_PROC}, buf, &length)]: the
      buffer (NULL or not) and the length passed in *)
  env_proc_list : nat -> bool -> N -> proc_list_reply;
  (** [sysctl({CTL_KERN, KERN_ARGMAX}, &argmax, &size)] *)
  env_argmax : nat -> sysctl_reply Z;
  (** [sysctl({CTL_KERN, KERN_PROC, KERN_PROC_ARGS, pid}, ...)]: the
      arguments of [pid], as the kernel holds them *)
  env_proc_args : nat -> Z -> sysctl_reply (list byte);
  (** [malloc(n)]: [None] when it fails, else the indeterminate bytes the
      fresh block holds *)
  env_malloc : nat -> N -> option (list byte);
  (** [Py_BuildValue("s", str)]: whether the runtime builds the object *)
  env_py_string : list byte -> bool;
  (** [PyList_Append(list, item)]: whether the runtime appends *)
  env_py_append : list (list byte) -> list byte -> bool;
  (** [Py_BuildValue("[]")]: whether the runtime builds the empty list, at
      the time of the call *)
  env_py_list : nat -> bool;
}.

(** ** The world *)

(** The pending exception of the Python runtime: [MemoryError], [OSError]
    with an error number, or one that a failing call of the runtime itself
    raised. *)
Inductive py_exception :=
| PyMemoryError
| PyOSError (code : Z)
| PyRaised.

(** The calls into the kernel and the allocator, with their answers. *)
Inductive event :=
| EvKill (pid : Z) (r : kill_reply)
| EvSysctlProcList (buf : pointer) (oldlen : N) (r : proc_list_reply)
| EvSysctlArgMax (r : sysctl_reply Z)
| EvSysctlProcArgs (pid : Z) (buf : pointer) (oldlen : N)
    (r : sysctl_reply (list byte))
| EvMalloc (n : N) (p : pointer)
| EvFree (l : positive).

Record world := World {
  clock : nat;              (* calls into the kernel and malloc so far *)
  heap : gmap positive (list byte);   (* the live blocks of malloc *)
  errno : Z;
  py_err : option py_exception;       (* the pending Python exception *)
  trace : list event;                 (* the calls made, oldest first *)
}.

Definition initial_world : world :=
  {| clock := 0; heap := ∅; errno := 0; py_err := None; trace := [] |}.

(** ** A state monad over the world *)

Definition M (A : Type) : Type := world -> A * world.

#[global] Instance world_ret : MRet M := fun A a w => (a, w).

#[global] Instance world_bind : MBind M :=
  fun A B k m w => let (a, w') := m w in k a w'.

Definition tick : M nat :=
  fun w => (clock w,
            {| clock := S (clock w); heap := heap w; errno := errno w;
               py_err := py_err w; trace := trace w |}).

Definition log (e : event) : M unit :=
  fun w => (tt,
            {| clock := clock w; heap := heap w; errno := errno w;
               py_err := py_err w; trace := trace w ++ [e] |}).

Definition set_errno (e : Z) : M unit :=
  fun w => (tt,
            {| clock := clock w; heap := heap w; errno := e;
               py_err := py_err w; trace := trace w |}).

Definition get_errno : M Z := fun w => (errno w, w).

Definition now : M nat := fun w => (clock w, w).

Definition set_heap (h : gmap positive (list byte)) : M unit :=
  fun w => (tt,
            {| clock := clock w; heap := h; errno := errno w;
               py_err := py_err w; trace := trace w |}).

Definition get_heap : M (gmap positive (list byte)) := fun w => (heap w, w).

Definition raise (x : py_exception) : M unit :=
  fun w => (tt,
            {| clock := clock w; heap := heap w; errno := errno w;
               py_err := Some x; trace := trace w |}).

(** ** The primitives *)

Section Primitives.
Context {P : Platform} (E : environment).

(** [kill(pid, 0)]: 0, or -1 with [errno] set. *)
Definition kill (pid : Z) : M Z :=
  t ← tick;
  let r := env_kill E t pid in
  log (EvKill pid r) ;;
  match r with
  | KillOk => mret 0%Z
  | KillErr e => set_errno (Z.pos e) ;; mret (-1)%Z
  end.

(** [sysctl] for the process table: the return value (0 or -1, with
    [errno] set) and the length field after the call.  The records
    written are opaque to the caller and are not modelled. *)
Definition sysctl_proc_list (buf : pointer) (oldlen : N) : M (Z * N) :=
  t ← tick;
  let r := env_proc_list E t (if buf is Some _ then true else false) oldlen in
  log (EvSysctlProcList buf oldlen r) ;;
  match pl_error r with
  | None => mret (0%Z, pl_length r)
  | Some e => set_errno (Z.pos e) ;; mret ((-1)%Z, pl_length r)
  end.

(** [sysctl] for [KERN_ARGMAX]: the return value and the [int] read. *)
Definition sysctl_argmax : M (Z * Z) :=
  t ← tick;
  let r := env_argmax E t in
  log (EvSysctlArgMax r) ;;
  match r with
  | SysctlOk v => mret (0%Z, C.to_int v)
  | SysctlErr e => set_errno (Z.pos e) ;; mret ((-1)%Z, 0%Z)
  end.

(** [sysctl] for [KERN_PROC_ARGS]: the kernel copies the arguments into the
    block [buf] of [oldlen] bytes and leaves the rest of the block as it
    was.  When they do not fit, it copies what fits and fails with
    [ENOMEM]. *)
Definition sysctl_proc_args (pid : Z) (buf : positive) (oldlen : N)
  : M (Z * N) :=
  t ← tick;
  let r := env_proc_args E t pid in
  log (EvSysctlProcArgs pid (Some buf) oldlen r) ;;
  match r with
  | SysctlErr e => set_errno (Z.pos e) ;; mret ((-1)%Z, oldlen)
  | SysctlOk data =>
      h ← get_heap;
      let n := N.to_nat oldlen in
      let written := take n data in
      set_heap (alter (fun old => written ++ drop (length written) old) buf h) ;;
      if (N.of_nat (length data) <=? oldlen)%N
      then mret (0%Z, N.of_nat (length data))
      else set_errno (Z.pos ENOMEM) ;; mret ((-1)%Z, N.of_nat (length written))
  end.

(** [malloc(n)]: a fresh block of [n] bytes of indeterminate content, or
    NULL with [errno] set. *)
Definition malloc (n : N) : M pointer :=
  t ← tick;
  h ← get_heap;
  match env_malloc E t n with
  | None =>
      log (EvMalloc n None) ;;
      set_errno (Z.pos ENOMEM) ;;
      mret None
  | Some junk =>
      let l := fresh (dom h) in
      log (EvMalloc n (Some l)) ;;
      set_heap (<[l := resize (N.to_nat n) x00 junk]> h) ;;
      mret (Some l)
  end.

(** [free(l)] *)
Definition free (l : positive) : M unit :=
  h ← get_heap;
  log (EvFree l) ;;
  set_heap (delete l h).

Definition PyErr_NoMemory : M unit := raise PyMemoryError.

Definition PyErr_SetFromErrno : M unit :=
  e ← get_errno;
  raise (PyOSError e).

(** [Py_BuildValue("[]")]: a new empty list, or NULL with [MemoryError]
    raised.  The runtime is not the kernel: the clock does not move. *)
Definition Py_BuildValue_list : M (option (list (list byte))) :=
  t ← now;
  if env_py_list E t then mret (Some [])
  else raise PyMemoryError ;; mret None.

End Primitives.

(** ** psutil_pid_exists *)

Section PidExists.
Context {P : Platform} (E : environment).

(** Lines 216-234.  [pid] is a [long]; [kill] takes a [pid_t]. *)
Definition psutil_pid_exists (pid : Z) : M Z :=
  if (pid <? 0)%Z then mret 0%Z
  else
    r ← kill E (C.to_int pid);
    if (r =? 0)%Z then mret 1%Z
    else if (r =? Z.pos ESRCH)%Z then mret 0%Z
    else if (r =? Z.pos EPERM)%Z then mret 1%Z
    else PyErr_SetFromErrno ;; mret (-1)%Z.

End PidExists.

(** ** psutil_get_proc_list *)

(** How a function ends: it returns; it is stopped, because an [assert] of
    it fails or because a read leaves its block or goes through a NULL
    pointer (undefined behaviour); or the model's fuel is used up before
    the loop ends. *)
Inductive outcome (A : Type) :=
| Returned (a : A)
| Aborted
| OutOfFuel.
Arguments Returned {A} a.
Arguments Aborted {A}.
Arguments OutOfFuel {A}.

(** The local variables of [psutil_get_proc_list]. *)
Record locals := Locals {
  l_err : Z;
  l_result : pointer;
  l_done : bool;
  l_length : N;
}.

Section ProcList.
Context {P : Platform} (E : environment).

(** [if (err == -1) err = errno;] *)
Definition errno_if_failed (err : Z) : M Z :=
  if (err =? -1)%Z then get_errno else mret err.

(** Lines 65-97: the body of the [do ... while] loop. *)
Definition proc_list_iteration (result : pointer) : M (outcome locals) :=
  (* assert(result == NULL); *)
  if result is Some _ then mret Aborted
  else
    (* length = 0; err = sysctl(name, 3, NULL, &length, NULL, 0); *)
    '(err, length) ← sysctl_proc_list E None 0;
    err ← errno_if_failed err;
    (* if (err == 0) { result = malloc(length); ... } *)
    '(err, result) ←
      (if (err =? 0)%Z
       then
         result ← malloc E length;
         mret (if result is None then Z.pos ENOMEM else err, result)
       else mret (err, result));
    if (err =? 0)%Z
    then
      (* err = sysctl(name, 3, result, &length, NULL, 0); *)
      '(err, length) ← sysctl_proc_list E result length;
      err ← errno_if_failed err;
      if (err =? 0)%Z
      then mret (Returned (Locals err result true length))
      else if (err =? Z.pos ENOMEM)%Z
      then
        (* assert(result != NULL); free(result); result = NULL; err = 0; *)
        match result with
        | None => mret Aborted
        | Some l => free l ;; mret (Returned (Locals 0 None false length))
        end
      else mret (Returned (Locals err result false length))
    else mret (Returned (Locals err result false length)).

(** Lines 64-98: [do { ... } while (err == 0 && ! done);] *)
Fixpoint proc_list_loop (fuel : nat) (result : pointer)
  : M (outcome locals) :=
  match fuel with
  | O => mret OutOfFuel
  | S fuel' =>
      o ← proc_list_iteration result;
      match o with
      | Returned s =>
          if (l_err s =? 0)%Z && negb (l_done s)
          then proc_list_loop fuel' (l_result s)
          else mret (Returned s)
      | Aborted => mret Aborted
      | OutOfFuel => mret OutOfFuel
      end
  end.

(** Lines 100-110: "clean up and establish post conditions".  The result
    is [(err, procList, procCount)]: the return value and what the two
    out-parameters hold. *)
Definition proc_list_finish (s : locals) : M (outcome (Z * pointer * N)) :=
  (* if (err != 0 && result != NULL) { free(result); result = NULL; } *)
  result ←
    match l_result s with
    | Some l =>
        if negb (l_err s =? 0)%Z
        then free l ;; mret None
        else mret (Some l)
    | None => mret None
    end;
  let procList : pointer := result in
  let procCount := (l_length s / Npos sizeof_kinfo_proc)%N in
  (* assert((err == 0) == (procList[0] != NULL)); *)
  if Bool.eqb (l_err s =? 0)%Z (if procList is Some _ then true else false)
  then mret (Returned (l_err s, procList, procCount))
  else mret Aborted.

(** Lines 35-111.  The three asserts at entry are on the out-parameters
    the caller passes and have no counterpart here. *)
Definition psutil_get_proc_list (fuel : nat)
  : M (outcome (Z * pointer * N)) :=
  (* result = NULL; done = 0; *)
  o ← proc_list_loop fuel None;
  match o with
  | Returned s => proc_list_finish s
  | Aborted => mret Aborted
  | OutOfFuel => mret OutOfFuel
  end.

End ProcList.

(** ** psutil_get_cmd_args and psutil_get_cmdline *)

(** How the scan of the argument block ends. *)
Inductive scan_outcome :=
| ScanDone (py_retlist : list (list byte)) (pos : Z)
| ScanError            (* goto error: the runtime refused an object *)
| ScanFault            (* a read outside the block: undefined behaviour *)
| ScanFuel.

Section CmdLine.
Context {P : Platform} (E : environment).

(** Lines 127-165.  The result is [(procargs, argsize)]: the out-parameter
    [argsize] is written on success only, and is given back as passed in
    otherwise. *)
Definition psutil_get_cmd_args (pid : Z) (argsize : N) : M (pointer * N) :=
  (* if (sysctl(mib, 2, &argmax, &size, NULL, 0) == -1) return NULL; *)
  '(r, argmax) ← sysctl_argmax E;
  if (r =? -1)%Z then mret (None, argsize)
  else
    (* procargs = malloc(argmax); *)
    procargs ← malloc E (C.to_size_t argmax);
    match procargs with
    | None => (PyErr_NoMemory ;; mret (None, argsize))
    | Some buf =>
        (* mib[3] = pid; size = argmax; *)
        let size := C.to_size_t argmax in
        '(r, size) ← sysctl_proc_args E (C.to_int pid) buf size;
        if (r =? -1)%Z
        then free buf ;; mret (None, argsize)
        else mret (Some buf, size)
    end.

(** The C string at [&argstr[pos]]: the bytes before the first null byte,
    and the offsets read to find it.  [None] when the read leaves the
    block before a null byte is found. *)
Fixpoint c_string (block : list byte) (off : Z)
  : option (list byte) * list Z :=
  match block with
  | [] => (None, [off])
  | b :: rest =>
      if Byte.eqb b x00 then (Some [], [off])
      else
        let (s, reads) := c_string rest (off + 1) in
        (option_map (cons b) s, off :: reads)
  end.

Definition c_string_at (argstr : list byte) (pos : Z)
  : option (list byte) * list Z :=
  if (pos <? 0)%Z then (None, [pos])
  else c_string (drop (Z.to_nat pos) argstr) pos.

(** Lines 187-195: [while (pos < argsize) { ... }], on the block [argstr].
    Besides the outcome, the offsets of the block that were read. *)
Fixpoint scan_loop (fuel : nat) (argstr : list byte) (argsize : N)
  (pos : Z) (py_retlist : list (list byte)) (reads : list Z)
  : scan_outcome * list Z :=
  match fuel with
  | O => (ScanFuel, reads)
  | S fuel' =>
      (* pos < argsize: [pos] is converted to [size_t] *)
      if (C.to_size_t pos <? argsize)%N
      then
        (* py_arg = Py_BuildValue("s", &argstr[pos]); *)
        let (s, r1) := c_string_at argstr pos in
        match s with
        | None => (ScanFault, reads ++ r1)
        | Some py_arg =>
            if negb (env_py_string E py_arg)
            then (ScanError, reads ++ r1)
            else if negb (env_py_append E py_retlist py_arg)
            then (ScanError, reads ++ r1)
            else
              (* pos = pos + strlen(&argstr[pos]) + 1; *)
              let (_, r2) := c_string_at argstr pos in
              let strlen := N.of_nat (length py_arg) in
              let pos' :=
                C.to_int (Z.of_N (C.to_size_t pos + strlen + 1)
                            mod 2 ^ 64) in
              scan_loop fuel' argstr argsize pos'
                (py_retlist ++ [py_arg]) (reads ++ r1 ++ r2)
        end
      else (ScanDone py_retlist pos, reads)
  end.

(** The scan from offset 0 with an empty list.  Every iteration that goes
    on moves [pos] forward by one at least, so [argsize] iterations and
    the last test are enough. *)
Definition decode_arguments (argstr : list byte) (argsize : N)
  : scan_outcome * list Z :=
  scan_loop (S (N.to_nat argsize)) argstr argsize 0 [] [].

(** Lines 201-206: the error exit.  [py_retlist] is NULL when the list
    could not be built (line 174 does not test it); [Py_DECREF] then
    dereferences NULL, before the block is freed. *)
Definition cmdline_error (py_retlist : option (list (list byte)))
  (argstr : pointer) : M (outcome (option (list (list byte)))) :=
  (* Py_XDECREF(py_arg); Py_DECREF(py_retlist); *)
  match py_retlist with
  | None => mret Aborted
  | Some _ =>
      (* if (argstr != NULL) free(argstr); return NULL; *)
      match argstr with
      | Some buf => free buf
      | None => mret tt
      end ;;
      mret (Returned None)
  end.

(** Lines 169-207.  [None] is the NULL return. *)
Definition psutil_get_cmdline (pid : Z)
  : M (outcome (option (list (list byte)))) :=
  (* py_retlist = Py_BuildValue("[]"); *)
  py_retlist ← Py_BuildValue_list E;
  (* if (pid < 0) return py_retlist; *)
  if (pid <? 0)%Z then mret (Returned py_retlist)
  else
    '(argstr, argsize) ← psutil_get_cmd_args pid 0;
    match argstr with
    | None => cmdline_error py_retlist None
    | Some buf =>
        h ← get_heap;
        let block := default [] (h !! buf) in
        (* if (argsize > 0) { while ... } *)
        if (0 <? argsize)%N
        then
          match py_retlist with
          | None =>
              (* the first iteration hands the NULL list to PyList_Append,
                 or, when no object was built, to the error exit *)
              mret Aborted
          | Some l =>
              match fst (decode_arguments block argsize) with
              | ScanDone py_retlist _ =>
                  (free buf ;; mret (Returned (Some py_retlist)))
              | ScanError =>
                  (raise PyRaised ;; cmdline_error (Some l) (Some buf))
              | ScanFault => mret Aborted
              | ScanFuel => mret OutOfFuel
              end
          end
        else
          (* free(argstr); return py_retlist; *)
          free buf ;; mret (Returned py_retlist)
    end.

End CmdLine.

(** ** Worlds and environments for the statements *)

(** The world after [n] more calls into the environment that left the heap
    [h], the error number [e] and the events [evs]. *)
Definition advance (w : world) (n : nat) (h : gmap positive (list byte))
  (e : Z) (evs : list event) : world :=
  {| clock := n + clock w; heap := h; errno := e; py_err := py_err w;
     trace := trace w ++ evs |}.

(** An environment in which nothing fails and nothing runs: the base of the
    examples below. *)
Definition idle : environment :=
  {| env_kill := fun _ _ => KillOk;
     env_proc_list := fun _ _ _ => ProcListReply None 0;
     env_argmax := fun _ => SysctlOk 0%Z;
     env_proc_args := fun _ _ => SysctlOk [];
     env_malloc := fun _ _ => Some [];
     env_py_string := fun _ => true;
     env_py_append := fun _ _ => true;
     env_py_list := fun _ => true |}.

(** A kernel whose [kill] fails with the error [e] for every process. *)
Definition kill_fails (e : positive) : environment :=
  {| env_kill := fun _ _ => KillErr e;
     env_proc_list := env_proc_list idle;
     env_argmax := env_argmax idle;
     env_proc_args := env_proc_args idle;
     env_malloc := env_malloc idle;
     env_py_string := env_py_string idle;
     env_py_append := env_py_append idle;
     env_py_list := env_py_list idle |}.

(** A kernel that answers the queries for the process table from a script,
    one answer per call into the environment (the answers at the times of
    [malloc] are not looked at); [malloc] succeeds. *)
Definition scripted (script : list proc_list_reply) : environment :=
  {| env_kill := env_kill idle;
     env_proc_list := fun t _ _ => nth t script (ProcListReply None 0);
     env_argmax := env_argmax idle;
     env_proc_args := env_proc_args idle;
     env_malloc := env_malloc idle;
     env_py_string := env_py_string idle;
     env_py_append := env_py_append idle;
     env_py_list := env_py_list idle |}.

(** A kernel that holds the arguments [args] for every process and reports
    [argmax] as the argument-space limit; a fresh block holds [junk]. *)
Definition with_args (argmax : Z) (args : sysctl_reply (list byte))
  (junk : list byte) : environment :=
  {| env_kill := env_kill idle;
     env_proc_list := env_proc_list idle;
     env_argmax := fun _ => SysctlOk argmax;
     env_proc_args := fun _ _ => args;
     env_malloc := fun _ _ => Some junk;
     env_py_string := env_py_string idle;
     env_py_append := env_py_append idle;
     env_py_list := env_py_list idle |}.

(** Whether the query for the arguments of a process fails, given the
    answer of the kernel and the size of the buffer: the kernel reports an
    error, or the arguments do not fit. *)
Definition args_query_fails (r : sysctl_reply (list byte)) (size : N) : Prop :=
  match r with
  | SysctlErr _ => True
  | SysctlOk data => (size < N.of_nat (length data))%N
  end.

(** Process tables for the examples, on FreeBSD (a record is 1088 bytes).
    The answer at the time of [malloc] is a filler. *)
Definition filler : proc_list_reply := ProcListReply None 0.

(** The sizing query asks for four records, the table then holds three. *)
Definition shrinking_table : list proc_list_reply :=
  [ProcListReply None 4352; filler; ProcListReply None 3264].

(** The kernel reports one byte more than one record. *)
Definition odd_length_table : list proc_list_reply :=
  [ProcListReply None 2176; filler; ProcListReply None 1089].

(** The table grows between the sizing query and the query with the
    buffer, once. *)
Definition growing_table : list proc_list_reply :=
  [ProcListReply None 1088; filler; ProcListReply (Some 12%positive) 1088;
   ProcListReply None 2176; filler; ProcListReply None 2176].

(** A string with no null byte in it. *)
Definition null_free (s : list byte) : Prop := Forall (fun b => b <> x00) s.

(** The strings joined with null separators. *)
Fixpoint join_null (args : list (list byte)) : list byte :=
  match args with
  | [] => []
  | [s] => s
  | s :: rest => s ++ x00 :: join_null rest
  end.

(** The blob of the round trip: the strings joined with null separators,
    and a trailing null. *)
Definition encode_args (args : list (list byte)) : list byte :=
  join_null args ++ [x00].

(** Each string followed by its terminating null, back to back. *)
Definition terminated (args : list (list byte)) : list byte :=
  concat (map (fun s => s ++ [x00]) args).

(** The offsets that the scan of the strings [args], laid out from the
    offset [pos] on, reads: each string and its terminator, once to build
    the object and once more for [strlen]. *)
Fixpoint scan_reads (pos : Z) (args : list (list byte)) : list Z :=
  match args with
  | [] => []
  | s :: rest =>
      let n := (Z.of_nat (length s) + 1)%Z in
      seqZ pos n ++ seqZ pos n ++ scan_reads (pos + n) rest
  end.

(** The bytes of a string literal. *)
Definition bytes (s : string) : list byte := list_byte_of_string s.

(** ** Definitions for the further properties *)

(** Whether the round of [psutil_get_proc_list] that starts at the time [t]
    is a retried one: the sizing query and [malloc] succeed and the query
    with the buffer fails with [ENOMEM]. *)
Definition retries_at {P : Platform} (E : environment) (t : nat) : bool :=
  let r1 := env_proc_list E t false 0 in
  match pl_error r1, env_malloc E (S t) (pl_length r1),
        pl_error (env_proc_list E (S (S t)) true (pl_length r1)) with
  | None, Some _, Some e => Pos.eqb e ENOMEM
  | _, _, _ => false
  end.

(** Whether the fetch of the arguments of [pid], started at the time [t],
    fails in one of its two kernel queries ([malloc] succeeding). *)
Definition fetch_fails_in_kernel (E : environment) (pid : Z) (t : nat)
  : Prop :=
  match env_argmax E t with
  | SysctlErr _ => True
  | SysctlOk argmax =>
      let size := C.to_size_t (C.to_int argmax) in
      is_Some (env_malloc E (S t) size) /\
      args_query_fails (env_proc_args E (S (S t)) (C.to_int pid)) size
  end.

(** A blob cut at its null bytes: the strings that are terminated, in
    order, and the bytes after the last null byte. *)
Fixpoint split_null (blob : list byte) : list (list byte) * list byte :=
  match blob with
  | [] => ([], [])
  | b :: rest =>
      let (args, tail) := split_null rest in
      if Byte.eqb b x00 then ([] :: args, tail)
      else
        match args with
        | [] => ([], b :: tail)
        | s :: args' => ((b :: s) :: args', tail)
        end
  end.

(** The environment [E] with a runtime that cannot build the list. *)
Definition without_list (E : environment) : environment :=
  {| env_kill := env_kill E;
     env_proc_list := env_proc_list E;
     env_argmax := env_argmax E;
     env_proc_args := env_proc_args E;
     env_malloc := env_malloc E;
     env_py_string := env_py_string E;
     env_py_append := env_py_append E;
     env_py_list := fun _ => false |}.

(** A runtime that refuses the strings that hold the byte 0xff, as a
    decoder of UTF-8 does; otherwise as [with_args]. *)
Definition strict_runtime (argmax : Z) (args : sysctl_reply (list byte))
  (junk : list byte) : environment :=
  {| env_kill := env_kill idle;
     env_proc_list := env_proc_list idle;
     env_argmax := fun _ => SysctlOk argmax;
     env_proc_args := fun _ _ => args;
     env_malloc := fun _ _ => Some junk;
     env_py_string := forallb (fun b => negb (Byte.eqb b xff));
     env_py_append := env_py_append idle;
     env_py_list := env_py_list idle |}.

(** ** Facts on the C integer conversions *)

Lemma to_int_small (z : Z) : (- 2 ^ 31 <= z < 2 ^ 31)%Z -> C.to_int z = z.
Proof.
  intros Hz. unfold C.to_int.
  rewrite Z.mod_small by lia. lia.
Qed.

Lemma int_below_size_t : (2 ^ 31 < 2 ^ 64)%Z.
Proof. reflexivity. Qed.

Lemma to_size_t_nonneg (z : Z) :
  (0 <= z < 2 ^ 64)%Z -> C.to_size_t z = Z.to_N z.
Proof. intros Hz. unfold C.to_size_t. now rewrite Z.mod_small. Qed.

Arguments decode_arguments : simpl never.

Ltac run_world :=
  cbv [proc_list_iteration sysctl_proc_list sysctl_argmax sysctl_proc_args
       malloc free errno_if_failed kill PyErr_SetFromErrno PyErr_NoMemory
       Py_BuildValue_list cmdline_error now
       tick log set_errno get_errno set_heap get_heap raise
       mbind world_bind mret world_ret];
  cbn [clock heap errno py_err trace fst snd].

(** ** psutil_pid_exists *)

Section PidExistsFacts.
Context {P : Platform} (E : environment).

(** A negative [pid] is reported dead, and [kill] is not called: the
    world is left as it was. *)
Lemma psutil_pid_exists_negative (pid : Z) (w : world) :
  (pid < 0)%Z -> psutil_pid_exists E pid w = (0%Z, w).
Proof.
  intros Hpid. unfold psutil_pid_exists.
  destruct (Z.ltb_spec pid 0) as [_|Hge]; [reflexivity | lia].
Qed.

(** When the probe succeeds the process is reported alive. *)
Lemma psutil_pid_exists_probe_ok (pid : Z) (w : world) :
  (0 <= pid)%Z ->
  env_kill E (clock w) (C.to_int pid) = KillOk ->
  fst (psutil_pid_exists E pid w) = 1%Z.
Proof.
  intros Hpid Hkill. unfold psutil_pid_exists.
  destruct (Z.ltb_spec pid 0) as [Hlt|_]; [lia|].
  run_world. rewrite Hkill. reflexivity.
Qed.

(** When the probe fails, with whatever error, the value compared with
    [ESRCH] and [EPERM] is the -1 that [kill] returned, which is neither:
    the function returns -1 and raises [OSError] with the error number. *)
Lemma psutil_pid_exists_probe_failed (pid : Z) (e : positive) (w : world) :
  (0 <= pid)%Z ->
  env_kill E (clock w) (C.to_int pid) = KillErr e ->
  fst (psutil_pid_exists E pid w) = (-1)%Z /\
  py_err (snd (psutil_pid_exists E pid w)) = Some (PyOSError (Z.pos e)).
Proof.
  intros Hpid Hkill. unfold psutil_pid_exists.
  destruct (Z.ltb_spec pid 0) as [Hlt|_]; [lia|].
  run_world. rewrite Hkill. cbn. split; reflexivity.
Qed.

End PidExistsFacts.

Section PidExistsFreeBSD.
#[local] Existing Instance freebsd_amd64.

(** C1.  On FreeBSD, for the process identifier 4242 and a kernel whose
    [kill] fails with "no such process" ([ESRCH]), [psutil_pid_exists]
    does not return 0 (dead): it returns -1 and raises [OSError] with
    [ESRCH].  When [kill] fails with "permission denied" ([EPERM]) it
    does not return 1 (alive) either, but -1 with [OSError] of [EPERM]. *)
Theorem psutil_pid_exists_ESRCH_EPERM_are_errors :
psutil_pid_exists (kill_fails ESRCH) 4242 initial_world
= ((-1)%Z,
   {| clock := 1; heap := ∅; errno := Z.pos ESRCH;
      py_err := Some (PyOSError (Z.pos ESRCH));
      trace := [EvKill 4242 (KillErr ESRCH)] |})
/\
psutil_pid_exists (kill_fails EPERM) 4242 initial_world
= ((-1)%Z,
   {| clock := 1; heap := ∅; errno := Z.pos EPERM;
      py_err := Some (PyOSError (Z.pos EPERM));
      trace := [EvKill 4242 (KillErr EPERM)] |}).
Proof. split; reflexivity. Qed.

End PidExistsFreeBSD.

(** ** psutil_get_proc_list *)

Section ProcListFacts.
Context {P : Platform} (E : environment).

Lemma fresh_block_free (w : world) : heap w !! fresh (dom (heap w)) = None.
Proof. apply not_elem_of_dom, is_fresh. Qed.

(** One iteration of the loop, by the answers of the environment: the
    sizing query at the time [t], [malloc] at [t + 1], the query with the
    buffer at [t + 2]. *)
Lemma proc_list_iteration_spec (w : world) :
  let t := clock w in
  let r1 := env_proc_list E t false 0 in
  let L := pl_length r1 in
  let buf := fresh (dom (heap w)) in
  let ev1 := EvSysctlProcList None 0 r1 in
  proc_list_iteration E None w =
  match pl_error r1 with
  | Some e =>
      (Returned (Locals (Z.pos e) None false L),
       advance w 1 (heap w) (Z.pos e) [ev1])
  | None =>
      match env_malloc E (S t) L with
      | None =>
          (Returned (Locals (Z.pos ENOMEM) None false L),
           advance w 2 (heap w) (Z.pos ENOMEM) [ev1; EvMalloc L None])
      | Some junk =>
          let r2 := env_proc_list E (S (S t)) true L in
          let h := <[buf := resize (N.to_nat L) x00 junk]> (heap w) in
          let ev2 := EvMalloc L (Some buf) in
          let ev3 := EvSysctlProcList (Some buf) L r2 in
          match pl_error r2 with
          | None =>
              (Returned (Locals 0 (Some buf) true (pl_length r2)),
               advance w 3 h (errno w) [ev1; ev2; ev3])
          | Some e =>
              if decide (e = ENOMEM)
              then (Returned (Locals 0 None false (pl_length r2)),
                    advance w 3 (heap w) (Z.pos e)
                      [ev1; ev2; ev3; EvFree buf])
              else (Returned (Locals (Z.pos e) (Some buf) false (pl_length r2)),
                    advance w 3 h (Z.pos e) [ev1; ev2; ev3])
          end
      end
  end.
Proof.
  cbv zeta. run_world.
  destruct (pl_error (env_proc_list E (clock w) false 0)) as [e|]; cbn.
  { reflexivity. }
  destruct (env_malloc E (S (clock w)) _) as [junk|]; cbn.
  2:{ unfold advance. cbn. rewrite <- !app_assoc. reflexivity. }
  destruct (pl_error (env_proc_list E (S (S (clock w))) true _)) as [e|]; cbn.
  2:{ unfold advance. cbn. rewrite <- !app_assoc. reflexivity. }
  destruct (decide (e = ENOMEM)) as [->|Hne].
  - rewrite Pos.eqb_refl. cbn. unfold advance. cbn.
    rewrite delete_insert_id by apply fresh_block_free.
    rewrite <- !app_assoc. reflexivity.
  - destruct (Pos.eqb_spec e ENOMEM) as [Heq|_]; [congruence|].
    unfold advance. cbn. rewrite <- !app_assoc. reflexivity.
Qed.

(** The loop after one round: it has ended, or it goes on from the world
    the round left, with one unit of fuel less. *)
Lemma proc_list_loop_round (fuel : nat) (w : world) :
  let t := clock w in
  let r1 := env_proc_list E t false 0 in
  let L := pl_length r1 in
  let buf := fresh (dom (heap w)) in
  let ev1 := EvSysctlProcList None 0 r1 in
  proc_list_loop E (S fuel) None w =
  match pl_error r1 with
  | Some e =>
      (Returned (Locals (Z.pos e) None false L),
       advance w 1 (heap w) (Z.pos e) [ev1])
  | None =>
      match env_malloc E (S t) L with
      | None =>
          (Returned (Locals (Z.pos ENOMEM) None false L),
           advance w 2 (heap w) (Z.pos ENOMEM) [ev1; EvMalloc L None])
      | Some junk =>
          let r2 := env_proc_list E (S (S t)) true L in
          let h := <[buf := resize (N.to_nat L) x00 junk]> (heap w) in
          let ev2 := EvMalloc L (Some buf) in
          let ev3 := EvSysctlProcList (Some buf) L r2 in
          match pl_error r2 with
          | None =>
              (Returned (Locals 0 (Some buf) true (pl_length r2)),
               advance w 3 h (errno w) [ev1; ev2; ev3])
          | Some e =>
              if decide (e = ENOMEM)
              then proc_list_loop E fuel None
                     (advance w 3 (heap w) (Z.pos e)
                        [ev1; ev2; ev3; EvFree buf])
              else (Returned (Locals (Z.pos e) (Some buf) false (pl_length r2)),
                    advance w 3 h (Z.pos e) [ev1; ev2; ev3])
          end
      end
  end.
Proof.
  cbv zeta. cbn [proc_list_loop].
  unfold mbind at 1. unfold world_bind at 1.
  rewrite proc_list_iteration_spec. cbv zeta.
  destruct (pl_error (env_proc_list E (clock w) false 0)) as [e|]; cbn.
  { reflexivity. }
  destruct (env_malloc E (S (clock w)) _) as [junk|]; cbn.
  2:{ reflexivity. }
  destruct (pl_error (env_proc_list E (S (S (clock w))) true _)) as [e|]; cbn.
  2:{ reflexivity. }
  destruct (decide (e = ENOMEM)) as [->|Hne]; reflexivity.
Qed.

(** The whole function after one round of the loop. *)
Lemma psutil_get_proc_list_round (fuel : nat) (w : world) :
  let t := clock w in
  let r1 := env_proc_list E t false 0 in
  let L := pl_length r1 in
  let buf := fresh (dom (heap w)) in
  let size := Npos sizeof_kinfo_proc in
  let ev1 := EvSysctlProcList None 0 r1 in
  psutil_get_proc_list E (S fuel) w =
  match pl_error r1 with
  | Some e =>
      (Returned (Z.pos e, None, (L / size)%N),
       advance w 1 (heap w) (Z.pos e) [ev1])
  | None =>
      match env_malloc E (S t) L with
      | None =>
          (Returned (Z.pos ENOMEM, None, (L / size)%N),
           advance w 2 (heap w) (Z.pos ENOMEM) [ev1; EvMalloc L None])
      | Some junk =>
          let r2 := env_proc_list E (S (S t)) true L in
          let h := <[buf := resize (N.to_nat L) x00 junk]> (heap w) in
          let ev2 := EvMalloc L (Some buf) in
          let ev3 := EvSysctlProcList (Some buf) L r2 in
          match pl_error r2 with
          | None =>
              (Returned (0%Z, Some buf, (pl_length r2 / size)%N),
               advance w 3 h (errno w) [ev1; ev2; ev3])
          | Some e =>
              if decide (e = ENOMEM)
              then psutil_get_proc_list E fuel
                     (advance w 3 (heap w) (Z.pos e)
                        [ev1; ev2; ev3; EvFree buf])
              else (Returned (Z.pos e, None, (pl_length r2 / size)%N),
                    advance w 3 (heap w) (Z.pos e)
                      [ev1; ev2; ev3; EvFree buf])
          end
      end
  end.
Proof.
  cbv zeta. unfold psutil_get_proc_list.
  unfold mbind at 1 2. unfold world_bind at 1 2.
  rewrite proc_list_loop_round. cbv zeta.
  destruct (pl_error (env_proc_list E (clock w) false 0)) as [e|]; cbn.
  { reflexivity. }
  destruct (env_malloc E (S (clock w)) _) as [junk|]; cbn.
  2:{ reflexivity. }
  destruct (pl_error (env_proc_list E (S (S (clock w))) true _)) as [e|]; cbn.
  2:{ reflexivity. }
  destruct (decide (e = ENOMEM)) as [->|Hne]; cbn.
  - reflexivity.
  - unfold proc_list_finish. run_world. unfold advance. cbn.
    rewrite delete_insert_id by apply fresh_block_free.
    rewrite <- !app_assoc. reflexivity.
Qed.

Lemma psutil_get_proc_list_no_fuel (w : world) :
  psutil_get_proc_list E 0 w = (OutOfFuel, w).
Proof. reflexivity. Qed.

(** A successful call ends with the three calls of its last round: the
    sizing query, [malloc] of the length it gave, and the query with the
    buffer; the count is the quotient of the length the last query left. *)
Lemma proc_list_success_trace (fuel : nat) (w w' : world)
  (procList : pointer) (procCount : N) :
  psutil_get_proc_list E fuel w = (Returned (0%Z, procList, procCount), w') ->
  exists tr r1 buf r2,
    trace w' = tr ++ [EvSysctlProcList None 0 r1;
                      EvMalloc (pl_length r1) (Some buf);
                      EvSysctlProcList (Some buf) (pl_length r1) r2] /\
    pl_error r1 = None /\ pl_error r2 = None /\
    procList = Some buf /\
    procCount = (pl_length r2 / Npos sizeof_kinfo_proc)%N.
Proof.
  revert w. induction fuel as [|fuel IH]; intros w Hrun.
  { rewrite psutil_get_proc_list_no_fuel in Hrun. discriminate. }
  rewrite psutil_get_proc_list_round in Hrun. cbv zeta in Hrun.
  destruct (pl_error (env_proc_list E (clock w) false 0)) as [e|] eqn:H1.
  { discriminate. }
  destruct (env_malloc E (S (clock w)) _) as [junk|] eqn:H2.
  2:{ discriminate. }
  destruct (pl_error (env_proc_list E (S (S (clock w))) true _))
    as [e|] eqn:H3.
  - destruct (decide (e = ENOMEM)) as [->|Hne]; [|discriminate].
    apply IH in Hrun. exact Hrun.
  - injection Hrun as <- <- <-.
    exists (trace w). eexists. eexists. eexists.
    split; [reflexivity|]. auto.
Qed.

(** C4.  Whatever the environment answers and however long the loop runs,
    [psutil_get_proc_list] never fails an [assert]; when it returns, the
    return value is 0 exactly when the buffer handed to the caller is not
    NULL; on a failing return no buffer is handed out and the heap is as
    before the call, so every block allocated by the call, in the failing
    round and in every retried round before it, has been freed; on success
    the one block added to the heap is the buffer handed out.  While the
    loop is still retrying, the heap is as before the call. *)
Theorem psutil_get_proc_list_buffer_postcondition (fuel : nat) (w : world) :
  match psutil_get_proc_list E fuel w with
  | (Returned (err, procList, _), w') =>
      (err = 0%Z <-> procList <> None) /\
      match procList with
      | None => heap w' = heap w
      | Some buf =>
          heap w !! buf = None /\ is_Some (heap w' !! buf) /\
          delete buf (heap w') = heap w
      end
  | (Aborted, _) => False
  | (OutOfFuel, w') => heap w' = heap w
  end.
Proof.
  revert w. induction fuel as [|fuel IH]; intros w.
  { reflexivity. }
  rewrite psutil_get_proc_list_round. cbv zeta.
  destruct (pl_error (env_proc_list E (clock w) false 0)) as [e|].
  { cbn. split; [split; [lia | congruence] | reflexivity]. }
  destruct (env_malloc E (S (clock w)) _) as [junk|].
  2:{ cbn. split; [split; [lia | congruence] | reflexivity]. }
  destruct (pl_error (env_proc_list E (S (S (clock w))) true _)) as [e|].
  - destruct (decide (e = ENOMEM)) as [->|Hne].
    + apply (IH (advance w 3 (heap w) _ _)).
    + cbn. split; [split; [lia | congruence] | reflexivity].
  - cbn. split; [split; [congruence | reflexivity] |].
    split; [apply fresh_block_free|].
    split; [rewrite lookup_insert_eq; eauto|].
    apply delete_insert_id, fresh_block_free.
Qed.

(** C5.  One round of [psutil_get_proc_list], by the answers of the
    kernel.  The function goes on to a further round, from a world whose
    heap is the one before the round (the buffer was freed) and whose next
    call is the sizing query again, in one case only: the sizing query and
    [malloc] succeeded and the query with the buffer failed with [ENOMEM];
    its result is then that of the further rounds, so this [ENOMEM] is not
    returned.  In every other case the function returns after this round: a
    failure of the sizing query or any other failure of the query with
    the buffer is returned as the error number of the kernel, with no
    further call to the kernel. *)
Theorem psutil_get_proc_list_retries_on_ENOMEM_only (fuel : nat) (w : world) :
  let t := clock w in
  let r1 := env_proc_list E t false 0 in
  let L := pl_length r1 in
  let r2 := env_proc_list E (S (S t)) true L in
  let buf := fresh (dom (heap w)) in
  let size := Npos sizeof_kinfo_proc in
  let ev1 := EvSysctlProcList None 0 r1 in
  let ev2 := EvMalloc L (Some buf) in
  let ev3 := EvSysctlProcList (Some buf) L r2 in
  let run := psutil_get_proc_list E (S fuel) w in
  match pl_error r1 with
  | Some e =>
      fst run = Returned (Z.pos e, None, (L / size)%N) /\
      trace (snd run) = trace w ++ [ev1]
  | None =>
      match env_malloc E (S t) L with
      | None =>
          fst run = Returned (Z.pos ENOMEM, None, (L / size)%N) /\
          trace (snd run) = trace w ++ [ev1; EvMalloc L None]
      | Some _ =>
          match pl_error r2 with
          | None =>
              fst run = Returned (0%Z, Some buf, (pl_length r2 / size)%N) /\
              trace (snd run) = trace w ++ [ev1; ev2; ev3]
          | Some e =>
              if decide (e = ENOMEM)
              then exists w',
                  run = psutil_get_proc_list E fuel w' /\
                  heap w' = heap w /\
                  clock w' = 3 + t /\
                  trace w' = trace w ++ [ev1; ev2; ev3; EvFree buf]
              else
                fst run = Returned (Z.pos e, None, (pl_length r2 / size)%N) /\
                trace (snd run) = trace w ++ [ev1; ev2; ev3; EvFree buf]
          end
      end
  end.
Proof.
  cbv zeta. rewrite psutil_get_proc_list_round. cbv zeta.
  destruct (pl_error (env_proc_list E (clock w) false 0)) as [e|].
  { split; reflexivity. }
  destruct (env_malloc E (S (clock w)) _) as [junk|].
  2:{ split; reflexivity. }
  destruct (pl_error (env_proc_list E (S (S (clock w))) true _)) as [e|].
  2:{ split; reflexivity. }
  destruct (decide (e = ENOMEM)) as [->|Hne].
  - eexists. split; [reflexivity|]. cbn. auto.
  - split; reflexivity.
Qed.

(** C6.  When [psutil_get_proc_list] succeeds, its last three calls are the
    sizing query, which left the length [L], [malloc(L)], and the query
    with the buffer of [L] bytes, which left the length [len]; the count
    handed to the caller is [len / sizeof(struct kinfo_proc)], whatever
    [L] was. *)
Theorem psutil_get_proc_list_count_from_final_length
  (fuel : nat) (w w' : world) (procList : pointer) (procCount : N) :
  psutil_get_proc_list E fuel w = (Returned (0%Z, procList, procCount), w') ->
  exists tr L buf len,
    trace w' = tr ++ [EvSysctlProcList None 0 (ProcListReply None L);
                      EvMalloc L (Some buf);
                      EvSysctlProcList (Some buf) L (ProcListReply None len)] /\
    procList = Some buf /\
    procCount = (len / Npos sizeof_kinfo_proc)%N.
Proof.
  intros Hrun.
  destruct (proc_list_success_trace _ _ _ _ _ Hrun)
    as (tr & [e1 L] & buf & [e2 len] & Htr & H1 & H2 & Hbuf & Hcount).
  cbn in *. subst e1 e2.
  exists tr, L, buf, len. auto.
Qed.

(** C3, as amended.  When [psutil_get_proc_list] succeeds, the count handed
    to the caller is the length [len] that the last query left, divided by
    the size of a record and rounded down: count * size <= len <
    (count + 1) * size.  The product equals [len] exactly when [len] is a
    multiple of the size; the call succeeds either way. *)
Theorem psutil_get_proc_list_count_rounds_down
  (fuel : nat) (w w' : world) (procList : pointer) (procCount : N) :
  psutil_get_proc_list E fuel w = (Returned (0%Z, procList, procCount), w') ->
  exists tr buf L len,
    trace w' = tr ++ [EvSysctlProcList (Some buf) L (ProcListReply None len)] /\
    procList = Some buf /\
    let size := Npos sizeof_kinfo_proc in
    (procCount * size <= len < procCount * size + size)%N /\
    ((procCount * size = len)%N <-> (len mod size = 0)%N).
Proof.
  intros Hrun.
  destruct (proc_list_success_trace _ _ _ _ _ Hrun)
    as (tr & r1 & buf & [e2 len] & Htr & H1 & H2 & Hbuf & Hcount).
  cbn in *. subst e2.
  exists (tr ++ [EvSysctlProcList None 0 r1;
                 EvMalloc (pl_length r1) (Some buf)]), buf, (pl_length r1), len.
  split; [rewrite <- app_assoc; exact Htr|].
  split; [exact Hbuf|]. cbv zeta.
  pose proof (N.div_mod len (Npos sizeof_kinfo_proc) ltac:(lia)) as Hdm.
  pose proof (N.mod_lt len (Npos sizeof_kinfo_proc) ltac:(lia)) as Hlt.
  rewrite <- Hcount, (N.mul_comm _ procCount) in Hdm.
  generalize dependent (len mod N.pos sizeof_kinfo_proc)%N.
  generalize dependent (procCount * N.pos sizeof_kinfo_proc)%N.
  intros q r Hlt Hdm. lia.
Qed.

End ProcListFacts.

Section ProcListFreeBSD.
#[local] Existing Instance freebsd_amd64.

(** The buffer is sized for four records and three are written: the count
    is three. *)
Lemma psutil_get_proc_list_count_from_final_length_witness :
  exists tr L buf len,
    trace (snd (psutil_get_proc_list (scripted shrinking_table) 1
                  initial_world))
    = tr ++ [EvSysctlProcList None 0 (ProcListReply None L);
             EvMalloc L (Some buf);
             EvSysctlProcList (Some buf) L (ProcListReply None len)] /\
    Some 1%positive = Some buf /\
    3%N = (len / Npos sizeof_kinfo_proc)%N.
Proof.
  apply (psutil_get_proc_list_count_from_final_length
           (scripted shrinking_table) 1 initial_world).
  vm_compute. reflexivity.
Defined.

Lemma psutil_get_proc_list_count_rounds_down_witness :
  exists tr buf L len,
    trace (snd (psutil_get_proc_list (scripted odd_length_table) 1
                  initial_world))
    = tr ++ [EvSysctlProcList (Some buf) L (ProcListReply None len)] /\
    Some 1%positive = Some buf /\
    let size := Npos sizeof_kinfo_proc in
    (1 * size <= len < 1 * size + size)%N /\
    ((1 * size = len)%N <-> (len mod size = 0)%N).
Proof.
  apply (psutil_get_proc_list_count_rounds_down
           (scripted odd_length_table) 1 initial_world).
  vm_compute. reflexivity.
Defined.

(** C3, as stated, fails.  The kernel reports 1089 bytes written, one more
    than a record of 1088 bytes: the call succeeds, with the count 1, and
    1 * 1088 is not 1089. *)
Lemma psutil_get_proc_list_accepts_remainder :
  fst (psutil_get_proc_list (scripted odd_length_table) 1 initial_world)
  = Returned (0%Z, Some 1%positive, 1%N) /\
  last (trace (snd (psutil_get_proc_list (scripted odd_length_table) 1
                      initial_world)))
  = Some (EvSysctlProcList (Some 1%positive) 2176 (ProcListReply None 1089)) /\
  (1 * Npos sizeof_kinfo_proc)%N <> 1089%N.
Proof. split; [|split]; [vm_compute; reflexivity.. | discriminate]. Qed.

(** The table grows once: the first buffer is freed, the second round
    succeeds, and the queries are four in all. *)
Example psutil_get_proc_list_growing_table :
  let (r, w) := psutil_get_proc_list (scripted growing_table) 2 initial_world in
  r = Returned (0%Z, Some 1%positive, 2%N) /\
  trace w =
    [EvSysctlProcList None 0 (ProcListReply None 1088);
     EvMalloc 1088 (Some 1%positive);
     EvSysctlProcList (Some 1%positive) 1088 (ProcListReply (Some ENOMEM) 1088);
     EvFree 1;
     EvSysctlProcList None 0 (ProcListReply None 2176);
     EvMalloc 2176 (Some 1%positive);
     EvSysctlProcList (Some 1%positive) 2176 (ProcListReply None 2176)].
Proof. vm_compute. split; reflexivity. Qed.

End ProcListFreeBSD.

(** ** psutil_get_cmd_args and psutil_get_cmdline *)

Section CmdLineFacts.
Context {P : Platform} (E : environment).

(** The block that [psutil_get_cmd_args] hands out when the kernel wrote
    [data] into a fresh block of [size] bytes that held [junk]: the
    arguments, then what the block held before. *)
Lemma psutil_get_cmd_args_success (pid : Z) (argsize : N) (w : world)
  (argmax : Z) (junk data : list byte) :
  let size := C.to_size_t (C.to_int argmax) in
  let buf := fresh (dom (heap w)) in
  let block := data ++ drop (length data) (resize (N.to_nat size) x00 junk) in
  env_argmax E (clock w) = SysctlOk argmax ->
  env_malloc E (S (clock w)) size = Some junk ->
  env_proc_args E (S (S (clock w))) (C.to_int pid) = SysctlOk data ->
  (N.of_nat (length data) <= size)%N ->
  psutil_get_cmd_args E pid argsize w =
  ((Some buf, N.of_nat (length data)),
   advance w 3 (<[buf := block]> (heap w)) (errno w)
     [EvSysctlArgMax (SysctlOk argmax); EvMalloc size (Some buf);
      EvSysctlProcArgs (C.to_int pid) (Some buf) size (SysctlOk data)]).
Proof.
  cbv zeta. intros Hmax Hmalloc Hargs Hfit.
  unfold psutil_get_cmd_args. run_world.
  rewrite Hmax. cbn. rewrite Hmalloc. cbn. rewrite Hargs. cbn.
  destruct (N.leb_spec (N.of_nat (length data))
              (C.to_size_t (C.to_int argmax))) as [_|Hlt]; [|lia].
  cbn. unfold advance. cbn.
  rewrite alter_insert_eq, take_ge by lia.
  rewrite <- !app_assoc. reflexivity.
Qed.

(** C9.  When the query for the size limit and [malloc] have succeeded and
    the query for the arguments of the process fails, [psutil_get_cmd_args]
    returns NULL, whatever the error of the kernel was: it raises no Python
    exception and hands the error number to the caller in no other way, and
    the last thing it does is to free the block it allocated, which leaves
    the heap as before the call. *)
Theorem psutil_get_cmd_args_query_failure (pid : Z) (argsize : N) (w : world)
  (argmax : Z) (junk : list byte) :
  env_argmax E (clock w) = SysctlOk argmax ->
  env_malloc E (S (clock w)) (C.to_size_t (C.to_int argmax)) = Some junk ->
  args_query_fails (env_proc_args E (S (S (clock w))) (C.to_int pid))
    (C.to_size_t (C.to_int argmax)) ->
  exists w' tr,
    psutil_get_cmd_args E pid argsize w = ((None, argsize), w') /\
    py_err w' = py_err w /\
    heap w' = heap w /\
    trace w' = tr ++ [EvFree (fresh (dom (heap w)))].
Proof.
  intros Hmax Hmalloc Hfail. unfold psutil_get_cmd_args. run_world.
  rewrite Hmax. cbn. rewrite Hmalloc. cbn.
  destruct (env_proc_args E (S (S (clock w))) (C.to_int pid))
    as [data|e] eqn:Hargs; cbn in *.
  - destruct (N.leb_spec (N.of_nat (length data))
                (C.to_size_t (C.to_int argmax))) as [Hle|_]; [lia|].
    cbn. eexists. eexists. split; [reflexivity|]. cbn.
    split; [reflexivity|]. split; [|reflexivity].
    rewrite alter_insert_eq. apply delete_insert_id, fresh_block_free.
  - eexists. eexists. split; [reflexivity|]. cbn.
    split; [reflexivity|]. split; [|reflexivity].
    apply delete_insert_id, fresh_block_free.
Qed.

(** [Py_BuildValue("[]")] by the answer of the runtime. *)
Lemma Py_BuildValue_list_spec (w : world) :
  Py_BuildValue_list E w =
  if env_py_list E (clock w)
  then (Some [], w)
  else (None,
        {| clock := clock w; heap := heap w; errno := errno w;
           py_err := Some PyMemoryError; trace := trace w |}).
Proof. run_world. destruct (env_py_list E (clock w)); reflexivity. Qed.

(** C10, as amended.  For a negative [pid], [psutil_get_cmdline] returns at
    once what [Py_BuildValue("[]")] gave, with no call to
    [psutil_get_cmd_args], to the kernel or to the allocator (the clock,
    the heap and the trace are as before): the empty list, in an
    unchanged world, when the runtime built it; NULL, with [MemoryError]
    pending, when it did not. *)
Theorem psutil_get_cmdline_negative_pid (pid : Z) (w : world) :
  (pid < 0)%Z ->
  psutil_get_cmdline E pid w =
  if env_py_list E (clock w)
  then (Returned (Some []), w)
  else (Returned None,
        {| clock := clock w; heap := heap w; errno := errno w;
           py_err := Some PyMemoryError; trace := trace w |}).
Proof.
  intros Hpid. unfold psutil_get_cmdline.
  unfold mbind at 1. unfold world_bind at 1.
  rewrite Py_BuildValue_list_spec.
  destruct (Z.ltb_spec pid 0) as [_|Hge]; [|lia].
  destruct (env_py_list E (clock w)); reflexivity.
Qed.

(** With a length of zero the loop ends at its first test: nothing is read
    and the list is empty. *)
Lemma decode_arguments_empty (argstr : list byte) :
  decode_arguments E argstr 0 = (ScanDone [] 0, []).
Proof. reflexivity. Qed.

(** [psutil_get_cmdline] for a process whose arguments the kernel wrote as
    [data]: what the scan of the block gives, and the block freed. *)
Lemma psutil_get_cmdline_scanned (pid : Z) (w : world)
  (argmax : Z) (junk data : list byte) (py_retlist : list (list byte))
  (pos : Z) :
  let size := C.to_size_t (C.to_int argmax) in
  let block := data ++ drop (length data) (resize (N.to_nat size) x00 junk) in
  let argsize := N.of_nat (length data) in
  (0 <= pid)%Z ->
  env_py_list E (clock w) = true ->
  env_argmax E (clock w) = SysctlOk argmax ->
  env_malloc E (S (clock w)) size = Some junk ->
  env_proc_args E (S (S (clock w))) (C.to_int pid) = SysctlOk data ->
  (argsize <= size)%N ->
  (if (0 <? argsize)%N then fst (decode_arguments E block argsize)
   else ScanDone [] 0) = ScanDone py_retlist pos ->
  psutil_get_cmdline E pid w =
  (Returned (Some py_retlist),
   advance w 3 (heap w) (errno w)
     [EvSysctlArgMax (SysctlOk argmax);
      EvMalloc size (Some (fresh (dom (heap w))));
      EvSysctlProcArgs (C.to_int pid) (Some (fresh (dom (heap w)))) size
        (SysctlOk data);
      EvFree (fresh (dom (heap w)))]).
Proof.
  cbv zeta. intros Hpid Hlist Hmax Hmalloc Hargs Hfit Hscan.
  unfold psutil_get_cmdline.
  unfold mbind at 1. unfold world_bind at 1.
  rewrite Py_BuildValue_list_spec, Hlist.
  destruct (Z.ltb_spec pid 0) as [Hlt|_]; [lia|].
  unfold mbind at 1. unfold world_bind at 1.
  rewrite (psutil_get_cmd_args_success pid 0 w argmax junk data)
    by assumption.
  run_world. unfold advance. cbn.
  rewrite lookup_insert_eq. cbn.
  destruct (0 <? N.of_nat (length data))%N.
  - rewrite Hscan. cbn.
    rewrite delete_insert_id by apply fresh_block_free.
    rewrite <- !app_assoc. reflexivity.
  - injection Hscan as <- _. cbn.
    rewrite delete_insert_id by apply fresh_block_free.
    rewrite <- !app_assoc. reflexivity.
Qed.

(** C8, as amended.  A block of length zero decodes to no string, with no
    read of the block: the loop is not entered.  When the kernel writes no
    byte for a process, [psutil_get_cmdline] frees the block and returns
    the list as [Py_BuildValue("[]")] gave it: the empty list, with
    nothing raised, when the runtime built it; NULL, with [MemoryError]
    pending, when it did not. *)
Theorem psutil_get_cmdline_empty_blob (pid : Z) (w : world)
  (argmax : Z) (junk : list byte) (argstr : list byte) :
  (0 <= pid)%Z ->
  env_argmax E (clock w) = SysctlOk argmax ->
  env_malloc E (S (clock w)) (C.to_size_t (C.to_int argmax)) = Some junk ->
  env_proc_args E (S (S (clock w))) (C.to_int pid) = SysctlOk [] ->
  decode_arguments E argstr 0 = (ScanDone [] 0, []) /\
  fst (psutil_get_cmdline E pid w)
  = Returned (if env_py_list E (clock w) then Some [] else None) /\
  heap (snd (psutil_get_cmdline E pid w)) = heap w /\
  py_err (snd (psutil_get_cmdline E pid w))
  = (if env_py_list E (clock w) then py_err w else Some PyMemoryError).
Proof.
  intros Hpid Hmax Hmalloc Hargs.
  split; [apply decode_arguments_empty|].
  destruct (env_py_list E (clock w)) eqn:Hlist.
  - rewrite (psutil_get_cmdline_scanned pid w argmax junk [] [] 0);
      try assumption.
    + cbn. auto.
    + cbn. lia.
    + reflexivity.
  - assert (Hrun : exists w',
               psutil_get_cmdline E pid w = (Returned None, w') /\
               heap w' = heap w /\ py_err w' = Some PyMemoryError).
    { unfold psutil_get_cmdline.
      unfold mbind at 1. unfold world_bind at 1.
      rewrite Py_BuildValue_list_spec, Hlist.
      destruct (Z.ltb_spec pid 0) as [Hlt|_]; [lia|].
      unfold mbind at 1. unfold world_bind at 1.
      rewrite (psutil_get_cmd_args_success pid 0 _ argmax junk [])
        by (cbn; (assumption || lia)).
      run_world. unfold advance. cbn.
      eexists. split; [reflexivity|]. cbn. split; [|reflexivity].
      apply delete_insert_id, fresh_block_free. }
    destruct Hrun as (w' & -> & Hheap & Herr). cbn. auto.
Qed.

End CmdLineFacts.

(** ** The scan of the argument block *)

Section ScanFacts.
Context (E : environment).

Lemma eqb_x00_false (b : byte) : b <> x00 -> Byte.eqb b x00 = false.
Proof.
  intros Hb. destruct (Byte.eqb b x00) eqn:Heq; [|reflexivity].
  apply Byte.byte_dec_bl in Heq. contradiction.
Qed.

(** A string that ends with a null byte in the block is read up to and
    with that byte. *)
Lemma c_string_terminated (s rest : list byte) (off : Z) :
  null_free s ->
  c_string (s ++ x00 :: rest) off
  = (Some s, seqZ off (Z.of_nat (length s) + 1)).
Proof.
  intros Hs. revert off.
  induction Hs as [|b s Hb Hs IH]; intros off; cbn [c_string app length].
  - reflexivity.
  - rewrite (eqb_x00_false b Hb), IH. cbn [option_map].
    rewrite (seqZ_cons off) by lia. repeat f_equal; lia.
Qed.

(** A string that runs to the end of the block with no null byte is read
    to one byte past the block. *)
Lemma c_string_unterminated (s : list byte) (off : Z) :
  null_free s ->
  c_string s off = (None, seqZ off (Z.of_nat (length s) + 1)).
Proof.
  intros Hs. revert off.
  induction Hs as [|b s Hb Hs IH]; intros off; cbn [c_string length].
  - reflexivity.
  - rewrite (eqb_x00_false b Hb), IH. cbn [option_map].
    rewrite (seqZ_cons off) by lia. repeat f_equal; lia.
Qed.

Lemma c_string_at_terminated (pre s rest : list byte) :
  null_free s ->
  c_string_at (pre ++ s ++ x00 :: rest) (Z.of_nat (length pre))
  = (Some s, seqZ (Z.of_nat (length pre)) (Z.of_nat (length s) + 1)).
Proof.
  intros Hs. unfold c_string_at.
  destruct (Z.ltb_spec (Z.of_nat (length pre)) 0) as [Hlt|_]; [lia|].
  rewrite Nat2Z.id, drop_app_length.
  apply c_string_terminated, Hs.
Qed.

(** The next position stays an [int] as long as the block is shorter than
    2^31 bytes. *)
Lemma next_pos_small (pos : Z) (len : nat) :
  (0 <= pos)%Z -> (pos + Z.of_nat len + 1 < 2 ^ 31)%Z ->
  C.to_int (Z.of_N (C.to_size_t pos + N.of_nat len + 1) mod 2 ^ 64)
  = (pos + Z.of_nat len + 1)%Z.
Proof.
  intros Hpos Hsmall. pose proof int_below_size_t as Hint.
  rewrite to_size_t_nonneg by lia.
  replace (Z.of_N (Z.to_N pos + N.of_nat len + 1))
    with (pos + Z.of_nat len + 1)%Z by lia.
  rewrite Z.mod_small by lia.
  apply to_int_small. lia.
Qed.

Lemma length_terminated_cons (s : list byte) (args : list (list byte)) :
  length (terminated (s :: args))
  = (length s + 1 + length (terminated args))%nat.
Proof.
  unfold terminated. cbn [map concat].
  rewrite !length_app. cbn [length]. lia.
Qed.

Lemma length_terminated_ge (args : list (list byte)) :
  (length args <= length (terminated args))%nat.
Proof.
  induction args as [|s args IH]; [cbn; lia|].
  rewrite length_terminated_cons. cbn [length]. lia.
Qed.

(** The scan over strings that are each terminated inside the logical
    length: one iteration per string, each appended as it is. *)
Lemma scan_loop_terminated (args : list (list byte)) :
  forall (fuel : nat) (pre rest : list byte) (argsize : N)
         (py_retlist : list (list byte)) (reads : list Z),
  Forall null_free args ->
  Forall (fun s => env_py_string E s = true) args ->
  (forall l s, env_py_append E l s = true) ->
  (Z.of_nat (length (pre ++ terminated args ++ rest)) < 2 ^ 31)%Z ->
  (N.of_nat (length (pre ++ terminated args)) <= argsize)%N ->
  scan_loop E (length args + fuel) (pre ++ terminated args ++ rest) argsize
    (Z.of_nat (length pre)) py_retlist reads
  = scan_loop E fuel (pre ++ terminated args ++ rest) argsize
      (Z.of_nat (length (pre ++ terminated args))) (py_retlist ++ args)
      (reads ++ scan_reads (Z.of_nat (length pre)) args).
Proof.
  induction args as [|s args IH];
    intros fuel pre rest argsize py_retlist reads Hnull Hstr Happ Hlen Hsize.
  { cbn. rewrite !app_nil_r. reflexivity. }
  apply Forall_cons in Hnull as [Hs Hnull].
  apply Forall_cons in Hstr as [Hstr_s Hstr].
  rewrite 2!length_app in Hlen. rewrite length_app in Hsize.
  rewrite (length_terminated_cons s args) in Hlen, Hsize.
  assert (Hblock : pre ++ terminated (s :: args) ++ rest
                   = (pre ++ s ++ [x00]) ++ terminated args ++ rest).
  { unfold terminated. cbn [map concat]. rewrite <- !app_assoc. reflexivity. }
  assert (Hcs : c_string_at (pre ++ terminated (s :: args) ++ rest)
                  (Z.of_nat (length pre))
                = (Some s, seqZ (Z.of_nat (length pre))
                             (Z.of_nat (length s) + 1))).
  { unfold terminated. cbn [map concat]. rewrite <- !app_assoc.
    apply c_string_at_terminated, Hs. }
  pose proof int_below_size_t as Hint.
  cbn [length Nat.add scan_loop].
  assert (Hpos : C.to_size_t (Z.of_nat (length pre)) = N.of_nat (length pre))
    by (rewrite to_size_t_nonneg by lia; lia).
  destruct (N.ltb_spec (C.to_size_t (Z.of_nat (length pre))) argsize)
    as [_|Hge]; [|lia].
  rewrite !Hcs, Hstr_s, Happ. cbn [negb].
  rewrite next_pos_small by lia.
  rewrite Hblock.
  replace (Z.of_nat (length pre) + Z.of_nat (length s) + 1)%Z
    with (Z.of_nat (length (pre ++ s ++ [x00])))
    by (rewrite !length_app; cbn [length]; lia).
  rewrite IH; try assumption.
  - f_equal.
    + rewrite !length_app, (length_terminated_cons s args). cbn [length]. lia.
    + rewrite <- app_assoc. reflexivity.
    + cbn [scan_reads]. rewrite <- !app_assoc. do 3 f_equal.
      rewrite !length_app. cbn [length]. f_equal. lia.
  - rewrite <- !app_assoc, 4!length_app. cbn [length]. lia.
  - rewrite <- !app_assoc, 3!length_app. cbn [length]. lia.
Qed.

(** The same from the start of the block. *)
Lemma scan_loop_terminated_start (args : list (list byte)) (fuel : nat)
  (rest : list byte) (argsize : N) :
  Forall null_free args ->
  Forall (fun s => env_py_string E s = true) args ->
  (forall l s, env_py_append E l s = true) ->
  (Z.of_nat (length (terminated args ++ rest)) < 2 ^ 31)%Z ->
  (N.of_nat (length (terminated args)) <= argsize)%N ->
  scan_loop E (length args + fuel) (terminated args ++ rest) argsize 0 [] []
  = scan_loop E fuel (terminated args ++ rest) argsize
      (Z.of_nat (length (terminated args))) args (scan_reads 0 args).
Proof.
  intros Hnull Hstr Happ Hlen Hsize.
  exact (scan_loop_terminated args fuel [] rest argsize [] []
           Hnull Hstr Happ Hlen Hsize).
Qed.

(** For one string at least, joining with separators and a trailing null
    is terminating each string. *)
Lemma encode_args_terminated (args : list (list byte)) :
  args <> [] -> encode_args args = terminated args.
Proof.
  intros Hne. unfold encode_args, terminated.
  induction args as [|s args IH]; [contradiction|].
  destruct args as [|s' args].
  - cbn. rewrite app_nil_r. reflexivity.
  - change (join_null (s :: s' :: args))
      with (s ++ x00 :: join_null (s' :: args)).
    rewrite <- app_assoc, <- app_comm_cons, IH by discriminate.
    change (map (fun s => s ++ [x00]) (s :: s' :: args))
      with ((s ++ [x00]) :: map (fun s => s ++ [x00]) (s' :: args)).
    cbn [concat]. rewrite <- app_assoc. reflexivity.
Qed.

(** The reads of the scan over terminated strings stay inside them. *)
Lemma scan_reads_bound (args : list (list byte)) (pos : Z) :
  Forall (fun o => (pos <= o < pos + Z.of_nat (length (terminated args)))%Z)
    (scan_reads pos args).
Proof.
  revert pos. induction args as [|s args IH]; intros pos; cbn [scan_reads].
  { constructor. }
  rewrite (length_terminated_cons s args).
  rewrite !Forall_app. repeat split.
  - apply Forall_seqZ. intros o Ho. lia.
  - apply Forall_seqZ. intros o Ho. lia.
  - eapply Forall_impl; [apply IH|]. cbn beta. intros o Ho. lia.
Qed.

(** The scan of a block that holds terminated strings up to its logical
    length: the strings, in order, and no read at or after that length. *)
Lemma decode_arguments_terminated (args : list (list byte))
  (rest : list byte) :
  Forall null_free args ->
  Forall (fun s => env_py_string E s = true) args ->
  (forall l s, env_py_append E l s = true) ->
  (Z.of_nat (length (terminated args ++ rest)) < 2 ^ 31)%Z ->
  decode_arguments E (terminated args ++ rest)
    (N.of_nat (length (terminated args)))
  = (ScanDone args (Z.of_nat (length (terminated args))),
     scan_reads 0 args).
Proof.
  intros Hnull Hstr Happ Hlen. unfold decode_arguments.
  pose proof (length_terminated_ge args) as Hge.
  pose proof int_below_size_t as Hint.
  rewrite Nat2N.id.
  replace (S (length (terminated args)))
    with (length args + S (length (terminated args) - length args))%nat
    by lia.
  rewrite scan_loop_terminated_start by (assumption || lia).
  cbn [scan_loop].
  rewrite length_app in Hlen.
  rewrite to_size_t_nonneg by lia.
  destruct (N.ltb_spec (Z.to_N (Z.of_nat (length (terminated args))))
              (N.of_nat (length (terminated args)))) as [Hlt|_]; [lia|].
  reflexivity.
Qed.

(** C7, as amended.  For every list of strings that is not empty and whose
    strings hold no null byte, the blob made by joining them with null
    separators and a trailing null, followed in the block by whatever
    bytes, decodes over its own length to exactly these strings in their
    order, byte for byte, with no read outside the blob: provided the
    Python runtime builds and appends each object, and the block is
    shorter than 2^31 bytes (its size is an [int]). *)
Theorem decode_arguments_round_trip (args : list (list byte))
  (rest : list byte) :
  args <> [] ->
  Forall null_free args ->
  Forall (fun s => env_py_string E s = true) args ->
  (forall l s, env_py_append E l s = true) ->
  (Z.of_nat (length (encode_args args ++ rest)) < 2 ^ 31)%Z ->
  let argsize := N.of_nat (length (encode_args args)) in
  exists reads,
    decode_arguments E (encode_args args ++ rest) argsize
    = (ScanDone args (Z.of_N argsize), reads) /\
    Forall (fun o => (0 <= o < Z.of_N argsize)%Z) reads.
Proof.
  intros Hne Hnull Hstr Happ Hlen argsize. subst argsize.
  rewrite (encode_args_terminated args Hne) in *.
  exists (scan_reads 0 args). split.
  - rewrite decode_arguments_terminated by assumption.
    f_equal. f_equal. lia.
  - eapply Forall_impl; [apply scan_reads_bound|].
    cbn beta. intros o Ho. lia.
Qed.

(** A blob that ends in a segment [last] with no null byte in it, after
    the terminated strings [args], in a block that holds a null byte
    somewhere after the blob: the scan is not cut at the logical length.
    It reads on through the bytes [over] that the block holds after the
    blob, up to that null byte.  The last argument is [last ++ over], the
    byte at the offset [argsize] is read, and the scan ends past
    [argsize]. *)
Theorem decode_arguments_unterminated (args : list (list byte))
  (last over rest : list byte) :
  Forall null_free args ->
  null_free last -> last <> [] -> null_free over ->
  Forall (fun s => env_py_string E s = true) (args ++ [last ++ over]) ->
  (forall l s, env_py_append E l s = true) ->
  let blob := terminated args ++ last in
  let argstr := blob ++ over ++ x00 :: rest in
  let argsize := N.of_nat (length blob) in
  (Z.of_nat (length argstr) < 2 ^ 31)%Z ->
  exists reads,
    decode_arguments E argstr argsize
    = (ScanDone (args ++ [last ++ over])
         (Z.of_N argsize + Z.of_nat (length over) + 1), reads) /\
    In (Z.of_N argsize) reads.
Proof.
  intros Hnull Hlast Hne Hover Hstr Happ blob argstr argsize Hlen.
  subst blob argstr argsize.
  pose proof (length_terminated_ge args) as Hge.
  pose proof int_below_size_t as Hint.
  assert (Hlast_len : (0 < length last)%nat)
    by (destruct last; [contradiction | cbn; lia]).
  apply Forall_app in Hstr as [Hstr Hstr_last].
  apply Forall_inv in Hstr_last.
  assert (Hnf : null_free (last ++ over)) by (apply Forall_app; auto).
  assert (Hblock : (terminated args ++ last) ++ over ++ x00 :: rest
                   = terminated args ++ (last ++ over) ++ x00 :: rest).
  { rewrite <- !app_assoc. reflexivity. }
  rewrite Hblock in *. clear Hblock.
  rewrite !length_app in Hlen. cbn [length] in Hlen.
  unfold decode_arguments. rewrite Nat2N.id, length_app.
  replace (S (length (terminated args) + length last))
    with (length args
          + S (S (length (terminated args) + length last - length args - 1)))%nat
    by lia.
  rewrite scan_loop_terminated_start;
    [| assumption | assumption | assumption
     | rewrite !length_app; cbn [length]; lia | lia ].
  eexists. split.
  - cbn [scan_loop].
    assert (Hpos : C.to_size_t (Z.of_nat (length (terminated args)))
                   = N.of_nat (length (terminated args)))
      by (rewrite to_size_t_nonneg by lia; lia).
    destruct (N.ltb_spec (C.to_size_t (Z.of_nat (length (terminated args))))
                (N.of_nat (length (terminated args) + length last)))
      as [_|Hge']; [|lia].
    rewrite !(c_string_at_terminated (terminated args) (last ++ over) rest Hnf).
    rewrite Hstr_last, Happ. cbn [negb].
    rewrite (length_app last over).
    rewrite next_pos_small by lia.
    rewrite to_size_t_nonneg by lia.
    destruct (N.ltb_spec
                (Z.to_N (Z.of_nat (length (terminated args))
                         + Z.of_nat (length last + length over) + 1))
                (N.of_nat (length (terminated args) + length last)))
      as [Hlt|_]; [lia|].
    f_equal. f_equal. lia.
  - apply in_or_app. right. apply in_or_app. left.
    apply list_elem_of_In, elem_of_seqZ. lia.
Qed.

Lemma c_string_at_unterminated (pre s : list byte) :
  null_free s ->
  c_string_at (pre ++ s) (Z.of_nat (length pre))
  = (None, seqZ (Z.of_nat (length pre)) (Z.of_nat (length s) + 1)).
Proof.
  intros Hs. unfold c_string_at.
  destruct (Z.ltb_spec (Z.of_nat (length pre)) 0) as [Hlt|_]; [lia|].
  rewrite Nat2Z.id, drop_app_length.
  apply c_string_unterminated, Hs.
Qed.

(** When the block holds no null byte after the terminated strings, the
    read for the last segment leaves the block. *)
Lemma decode_arguments_unterminated_fault (args : list (list byte))
  (last over : list byte) :
  Forall null_free args ->
  null_free last -> last <> [] -> null_free over ->
  Forall (fun s => env_py_string E s = true) args ->
  (forall l s, env_py_append E l s = true) ->
  (Z.of_nat (length (terminated args ++ last ++ over)) < 2 ^ 31)%Z ->
  fst (decode_arguments E (terminated args ++ last ++ over)
         (N.of_nat (length (terminated args ++ last))))
  = ScanFault.
Proof.
  intros Hnull Hlast Hne Hover Hstr Happ Hlen.
  pose proof (length_terminated_ge args) as Hge.
  pose proof int_below_size_t as Hint.
  assert (Hlast_len : (0 < length last)%nat)
    by (destruct last; [contradiction | cbn; lia]).
  assert (Hnf : null_free (last ++ over)) by (apply Forall_app; auto).
  unfold decode_arguments. rewrite Nat2N.id, length_app.
  replace (S (length (terminated args) + length last))
    with (length args
          + S (length (terminated args) + length last - length args))%nat
    by lia.
  rewrite scan_loop_terminated_start by (assumption || lia).
  rewrite !length_app in Hlen.
  cbn [scan_loop].
  assert (Hpos : C.to_size_t (Z.of_nat (length (terminated args)))
                 = N.of_nat (length (terminated args)))
    by (rewrite to_size_t_nonneg by lia; lia).
  destruct (N.ltb_spec (C.to_size_t (Z.of_nat (length (terminated args))))
              (N.of_nat (length (terminated args) + length last)))
    as [_|Hge']; [|lia].
  rewrite (c_string_at_unterminated (terminated args) (last ++ over) Hnf).
  reflexivity.
Qed.

(** A string found in a block lies inside it, terminator included. *)
Lemma c_string_inside (block s : list byte) (off : Z) (reads : list Z) :
  c_string block off = (Some s, reads) ->
  (length s + 1 <= length block)%nat.
Proof.
  revert s off reads.
  induction block as [|b block IH]; intros s off reads; cbn [c_string].
  { discriminate. }
  destruct (Byte.eqb b x00).
  { intros [= <- _]. cbn. lia. }
  destruct (c_string block (off + 1)) as [[s'|] reads'] eqn:Hrest;
    cbn [option_map]; [|discriminate].
  intros [= <- _]. apply IH in Hrest. cbn [length]. lia.
Qed.

Lemma c_string_at_inside (argstr s : list byte) (pos : Z) (reads : list Z) :
  c_string_at argstr pos = (Some s, reads) ->
  (0 <= pos)%Z /\
  (pos + Z.of_nat (length s) + 1 <= Z.of_nat (length argstr))%Z.
Proof.
  unfold c_string_at.
  destruct (Z.ltb_spec pos 0) as [Hlt|Hge]; [discriminate|].
  intros Hs. apply c_string_inside in Hs.
  rewrite length_drop in Hs. lia.
Qed.

(** The loop on a block shorter than 2^31 bytes never needs more
    iterations than the bytes left before the logical length, and one. *)
Lemma scan_loop_fuel (argstr : list byte) (argsize : N) (fuel : nat) :
  forall (pos : Z) (py_retlist : list (list byte)) (reads : list Z),
  (Z.of_nat (length argstr) < 2 ^ 31)%Z ->
  (0 <= pos < 2 ^ 31)%Z ->
  (0 < fuel)%nat ->
  (Z.of_N argsize - pos < Z.of_nat fuel)%Z ->
  fst (scan_loop E fuel argstr argsize pos py_retlist reads) <> ScanFuel.
Proof.
  pose proof int_below_size_t as Hint.
  induction fuel as [|fuel IH];
    intros pos py_retlist reads Hlen Hpos Hfuel0 Hfuel; [lia|].
  cbn [scan_loop].
  assert (Hsz : C.to_size_t pos = Z.to_N pos) by (apply to_size_t_nonneg; lia).
  destruct (N.ltb_spec (C.to_size_t pos) argsize) as [Hlt|Hge];
    [|cbn; discriminate].
  destruct (c_string_at argstr pos) as [[s|] r1] eqn:Hs; [|cbn; discriminate].
  apply c_string_at_inside in Hs as [_ Hs].
  destruct (env_py_string E s); cbn [negb]; [|cbn; discriminate].
  destruct (env_py_append E py_retlist s); cbn [negb]; [|cbn; discriminate].
  rewrite next_pos_small by lia.
  apply IH; lia.
Qed.

(** The decoder is total on blocks shorter than 2^31 bytes: the fuel it
    gives the loop is enough. *)
Lemma decode_arguments_total (argstr : list byte) (argsize : N) :
  (Z.of_nat (length argstr) < 2 ^ 31)%Z ->
  fst (decode_arguments E argstr argsize) <> ScanFuel.
Proof.
  intros Hlen. unfold decode_arguments.
  apply scan_loop_fuel; [assumption | split; [lia | reflexivity] | lia | lia].
Qed.

End ScanFacts.

(** ** Examples and instances *)

Ltac solve_null_free :=
  cbv [null_free bytes];
  repeat first
    [ apply Forall_nil | apply Forall_cons_2 | discriminate | exact I ].

(** Two arguments, then junk in the block. *)
Lemma decode_arguments_round_trip_witness :
  let args := [bytes "ls"; bytes "-l"] in
  let argsize := N.of_nat (length (encode_args args)) in
  exists reads,
    decode_arguments idle (encode_args args ++ bytes "junk") argsize
    = (ScanDone args (Z.of_N argsize), reads) /\
    Forall (fun o => (0 <= o < Z.of_N argsize)%Z) reads.
Proof.
  apply (decode_arguments_round_trip idle [bytes "ls"; bytes "-l"]
           (bytes "junk")).
  - discriminate.
  - solve_null_free.
  - repeat constructor.
  - reflexivity.
  - reflexivity.
Defined.

(** C7, as stated, fails for the empty list: joined with separators and
    followed by a trailing null it is the blob of one null byte, which
    decodes to the list of one empty string. *)
Lemma decode_arguments_empty_list_round_trip :
  encode_args [] = [x00] /\
  decode_arguments idle (encode_args []) (N.of_nat (length (encode_args [])))
  = (ScanDone [[]] 1, [0%Z; 0%Z]) /\
  [[]] <> ([] : list (list byte)).
Proof. split; [|split]; [reflexivity.. | discriminate]. Qed.

(** One terminated argument, then "ab" with no terminator; the block goes
    on with "cd" and a null byte. *)
Lemma decode_arguments_unterminated_witness :
  let blob := terminated [bytes "ls"] ++ bytes "ab" in
  let argstr := blob ++ bytes "cd" ++ x00 :: bytes "junk" in
  let argsize := N.of_nat (length blob) in
  exists reads,
    decode_arguments idle argstr argsize
    = (ScanDone ([bytes "ls"] ++ [bytes "ab" ++ bytes "cd"])
         (Z.of_N argsize + Z.of_nat (length (bytes "cd")) + 1), reads) /\
    In (Z.of_N argsize) reads.
Proof.
  apply (decode_arguments_unterminated idle [bytes "ls"] (bytes "ab")
           (bytes "cd") (bytes "junk")).
  - solve_null_free.
  - solve_null_free.
  - discriminate.
  - solve_null_free.
  - repeat constructor.
  - reflexivity.
  - reflexivity.
Defined.

(** The blob is "ab", of length 2, with no null byte; the block holds "cd"
    and a null byte after it.  The last argument is "abcd", not "ab", and
    the offsets 2, 3 and 4 are read. *)
Lemma decode_arguments_reads_past_argsize :
  decode_arguments idle (bytes "ab" ++ bytes "cd" ++ [x00]) 2
  = (ScanDone [bytes "abcd"] 5,
     [0; 1; 2; 3; 4; 0; 1; 2; 3; 4]%Z) /\
  bytes "abcd" <> bytes "ab".
Proof. split; [reflexivity | discriminate]. Qed.

(** The same through [psutil_get_cmdline]: the kernel writes "ab" into a
    fresh block of 8 bytes that held "wxcd". *)
Example psutil_get_cmdline_unterminated :
  fst (psutil_get_cmdline (P := freebsd_amd64)
         (with_args 8 (SysctlOk (bytes "ab")) (bytes "wxcd")) 7 initial_world)
  = Returned (Some [bytes "abcd"]).
Proof. reflexivity. Qed.

(** With no null byte in the rest of the block the read leaves it. *)
Example decode_arguments_fault :
  fst (decode_arguments idle (bytes "ab" ++ bytes "cd") 2) = ScanFault.
Proof. reflexivity. Qed.

(** C2.  The scan does not stop at the logical length of a blob whose last
    segment has no null byte.  The kernel writes the two bytes "ab" for
    the process.  In a block that goes on with "cd" and a null byte, the
    argument is "abcd" and the offsets 2, 3 and 4, at and after the
    length 2, are read; [psutil_get_cmdline] returns ["abcd"].  In a block
    of four bytes that goes on with "cd" only, the read goes to the offset
    4, outside the block, and [psutil_get_cmdline] does not return. *)
Theorem psutil_get_cmdline_overruns_unterminated_blob :
  decode_arguments idle (bytes "ab" ++ bytes "cd" ++ [x00]) 2
  = (ScanDone [bytes "abcd"] 5, [0; 1; 2; 3; 4; 0; 1; 2; 3; 4]%Z) /\
  fst (psutil_get_cmdline (P := freebsd_amd64)
         (with_args 8 (SysctlOk (bytes "ab")) (bytes "wxcd")) 7 initial_world)
  = Returned (Some [bytes "abcd"]) /\
  decode_arguments idle (bytes "ab" ++ bytes "cd") 2
  = (ScanFault, [0; 1; 2; 3; 4]%Z) /\
  fst (psutil_get_cmdline (P := freebsd_amd64)
         (with_args 4 (SysctlOk (bytes "ab")) (bytes "wxcd")) 7 initial_world)
  = Aborted.
Proof. repeat split; reflexivity. Qed.

(** A round trip through [psutil_get_cmdline]. *)
Example psutil_get_cmdline_round_trip :
  fst (psutil_get_cmdline (P := freebsd_amd64)
         (with_args 16 (SysctlOk (encode_args [bytes "ls"; bytes "-l"]))
            (bytes "junk")) 7 initial_world)
  = Returned (Some [bytes "ls"; bytes "-l"]).
Proof. reflexivity. Qed.

Lemma psutil_get_cmdline_empty_blob_witness :
  let E := with_args 16 (SysctlOk []) (bytes "junk") in
  decode_arguments E (bytes "junk") 0 = (ScanDone [] 0, []) /\
  fst (psutil_get_cmdline (P := freebsd_amd64) E 7 initial_world)
  = Returned (Some []) /\
  heap (snd (psutil_get_cmdline (P := freebsd_amd64) E 7 initial_world))
  = heap initial_world /\
  py_err (snd (psutil_get_cmdline (P := freebsd_amd64) E 7 initial_world))
  = py_err initial_world.
Proof.
  apply (psutil_get_cmdline_empty_blob (P := freebsd_amd64)
           (with_args 16 (SysctlOk []) (bytes "junk")) 7 initial_world
           16 (bytes "junk") (bytes "junk")).
  - lia.
  - reflexivity.
  - reflexivity.
  - reflexivity.
Defined.

(** C8, as stated, fails when the runtime cannot build the list: the
    kernel writes no byte, and [psutil_get_cmdline] returns NULL, not the
    empty list, with [MemoryError] pending. *)
Lemma psutil_get_cmdline_empty_blob_null_list :
  let E := without_list (with_args 16 (SysctlOk []) (bytes "junk")) in
  fst (psutil_get_cmdline (P := freebsd_amd64) E 7 initial_world)
  = Returned None /\
  py_err (snd (psutil_get_cmdline (P := freebsd_amd64) E 7 initial_world))
  = Some PyMemoryError /\
  (None : option (list (list byte))) <> Some [].
Proof. repeat split; [reflexivity.. | discriminate]. Qed.

Lemma psutil_get_cmdline_negative_pid_witness :
  psutil_get_cmdline (P := freebsd_amd64) idle (-1) initial_world
  = (Returned (Some []), initial_world).
Proof.
  apply (psutil_get_cmdline_negative_pid (P := freebsd_amd64) idle (-1)
           initial_world).
  lia.
Defined.

(** C10, as stated, fails when the runtime cannot build the list: for the
    [pid] -1, [psutil_get_cmdline] returns NULL, not the empty list, with
    [MemoryError] pending. *)
Lemma psutil_get_cmdline_negative_pid_null_list :
  psutil_get_cmdline (P := freebsd_amd64) (without_list idle) (-1)
    initial_world
  = (Returned None,
     {| clock := 0; heap := ∅; errno := 0;
        py_err := Some PyMemoryError; trace := [] |}) /\
  (None : option (list (list byte))) <> Some [].
Proof. split; [reflexivity | discriminate]. Qed.

(** The kernel refuses the arguments of the process with [EPERM]. *)
Lemma psutil_get_cmd_args_query_failure_witness :
  let E := with_args 16 (SysctlErr (EPERM (Platform := freebsd_amd64)))
             (bytes "junk") in
  exists w' tr,
    psutil_get_cmd_args (P := freebsd_amd64) E 7 0 initial_world
    = ((None, 0%N), w') /\
    py_err w' = py_err initial_world /\
    heap w' = heap initial_world /\
    trace w' = tr ++ [EvFree (fresh (dom (heap initial_world)))].
Proof.
  apply (psutil_get_cmd_args_query_failure (P := freebsd_amd64)
           (with_args 16 (SysctlErr (EPERM (Platform := freebsd_amd64)))
              (bytes "junk"))
           7 0 initial_world 16 (bytes "junk")).
  - reflexivity.
  - reflexivity.
  - exact I.
Defined.

(** ** Further properties of psutil_pid_exists *)

Section PidExistsMore.
Context {P : Platform} (E : environment).

(** X1.  [psutil_pid_exists] returns 0 exactly for the negative [pid]s: a
    [pid] that passes the guard is never reported as not existing. *)
Theorem psutil_pid_exists_zero_iff_negative (pid : Z) (w : world) :
  fst (psutil_pid_exists E pid w) = 0%Z <-> (pid < 0)%Z.
Proof.
  unfold psutil_pid_exists.
  destruct (Z.ltb_spec pid 0) as [Hlt|Hge].
  - split; [intros _; exact Hlt | reflexivity].
  - run_world.
    destruct (env_kill E (clock w) (C.to_int pid)); cbn;
      split; intros H; (discriminate || lia).
Qed.

(** X2.  The return value of [psutil_pid_exists] is 0, 1 or -1, and it
    tells whether a Python exception was raised: with -1 the pending
    exception is [OSError] of the current [errno], with 0 or 1 the error
    indicator is as before the call.  The heap is not touched. *)
Theorem psutil_pid_exists_error_indicator (pid : Z) (w : world) :
  let (r, w') := psutil_pid_exists E pid w in
  (r = 0%Z \/ r = 1%Z \/ r = (-1)%Z) /\
  (r = (-1)%Z -> py_err w' = Some (PyOSError (errno w'))) /\
  (r <> (-1)%Z -> py_err w' = py_err w) /\
  heap w' = heap w.
Proof.
  unfold psutil_pid_exists.
  destruct (Z.ltb_spec pid 0) as [Hlt|Hge].
  - cbn. repeat split; auto. discriminate.
  - run_world.
    destruct (env_kill E (clock w) (C.to_int pid)); cbn.
    + repeat split; auto. discriminate.
    + repeat split; auto. intros H. contradiction.
Qed.

(** X3.  [pid] is a [long] and [kill] takes a 32-bit [pid_t]: a [pid]
    that is not negative, and so passes the guard, but whose low 32 bits
    are 2^31 or more reaches [kill] as a negative number, which [kill]
    takes for a process group or for every process. *)
Theorem psutil_pid_exists_wraps_pid (pid : Z) (w : world) :
  (0 <= pid)%Z ->
  (2 ^ 31 <= pid mod 2 ^ 32)%Z ->
  exists r,
    trace (snd (psutil_pid_exists E pid w))
    = trace w ++ [EvKill (pid mod 2 ^ 32 - 2 ^ 32) r] /\
    (pid mod 2 ^ 32 - 2 ^ 32 < 0)%Z.
Proof.
  intros Hpid Hhigh.
  assert (Hmod : (0 <= pid mod 2 ^ 32 < 2 ^ 32)%Z)
    by (apply Z.mod_pos_bound; reflexivity).
  assert (Hint : C.to_int pid = (pid mod 2 ^ 32 - 2 ^ 32)%Z).
  { unfold C.to_int.
    assert (Hm : ((pid + 2 ^ 31) mod 2 ^ 32 = pid mod 2 ^ 32 - 2 ^ 31)%Z).
    { symmetry. apply (Z.mod_unique _ _ (pid / 2 ^ 32 + 1)); [lia|].
      pose proof (Z.div_mod pid (2 ^ 32) ltac:(discriminate)). lia. }
    rewrite Hm.
    change (2 ^ 32)%Z with (2 ^ 31 + 2 ^ 31)%Z. lia. }
  unfold psutil_pid_exists.
  destruct (Z.ltb_spec pid 0) as [Hlt|_]; [lia|].
  run_world. rewrite Hint.
  destruct (env_kill E (clock w) _) as [|e] eqn:Hkill; cbn.
  - exists KillOk. split; [reflexivity | lia].
  - exists (KillErr e). split; [reflexivity | lia].
Qed.

End PidExistsMore.

(** The [pid] 2^32 - 1 reaches [kill] as -1. *)
Lemma psutil_pid_exists_wraps_pid_witness :
  exists r,
    trace (snd (psutil_pid_exists (P := freebsd_amd64) idle 4294967295
                  initial_world))
    = trace initial_world ++ [EvKill (4294967295 mod 2 ^ 32 - 2 ^ 32) r] /\
    (4294967295 mod 2 ^ 32 - 2 ^ 32 < 0)%Z.
Proof.
  apply (psutil_pid_exists_wraps_pid (P := freebsd_amd64) idle 4294967295
           initial_world).
  - lia.
  - vm_compute. discriminate.
Defined.

(** ** Further properties of psutil_get_proc_list *)

Section ProcListMore.
Context {P : Platform} (E : environment).

(** A retried round leads to a world that is two queries and a [malloc]
    later, and one [free] more in the trace, with the same heap; from it
    the function goes on. *)
Lemma psutil_get_proc_list_retried_round (w : world) :
  retries_at E (clock w) = true ->
  exists w2,
    clock w2 = (3 + clock w)%nat /\ heap w2 = heap w /\
    length (trace w2) = (4 + length (trace w))%nat /\
    forall fuel,
      psutil_get_proc_list E (S fuel) w = psutil_get_proc_list E fuel w2.
Proof.
  unfold retries_at. cbv zeta. intros Hretry.
  destruct (pl_error (env_proc_list E (clock w) false 0)) as [e|] eqn:H1;
    [discriminate|].
  destruct (env_malloc E (S (clock w)) _) as [junk|] eqn:H2; [|discriminate].
  destruct (pl_error (env_proc_list E (S (S (clock w))) true _))
    as [e|] eqn:H3; [|discriminate].
  apply Pos.eqb_eq in Hretry. subst e.
  eexists. split; [|split; [|split]]; [| | |intros fuel].
  4:{ rewrite psutil_get_proc_list_round. cbv zeta.
      rewrite H1, H2, H3.
      destruct (decide (ENOMEM = ENOMEM)) as [_|Hne]; [|contradiction].
      reflexivity. }
  - reflexivity.
  - reflexivity.
  - cbn. rewrite length_app. cbn. lia.
Qed.

(** A round that is not retried is the last one: the function returns
    after one to three queries and [malloc]s, one to four calls in all. *)
Lemma psutil_get_proc_list_final_round (fuel : nat) (w : world) :
  retries_at E (clock w) = false ->
  exists r w',
    psutil_get_proc_list E (S fuel) w = (Returned r, w') /\
    (clock w < clock w' <= clock w + 3)%nat /\
    (length (trace w) < length (trace w') <= length (trace w) + 4)%nat.
Proof.
  unfold retries_at. cbv zeta. intros Hfinal.
  rewrite psutil_get_proc_list_round. cbv zeta.
  destruct (pl_error (env_proc_list E (clock w) false 0)) as [e|].
  { eexists. eexists. split; [reflexivity|]. cbn.
    rewrite length_app. cbn. lia. }
  destruct (env_malloc E (S (clock w)) _) as [junk|].
  2:{ eexists. eexists. split; [reflexivity|]. cbn.
      rewrite length_app. cbn. lia. }
  destruct (pl_error (env_proc_list E (S (S (clock w))) true _)) as [e|].
  2:{ eexists. eexists. split; [reflexivity|]. cbn.
      rewrite length_app. cbn. lia. }
  destruct (decide (e = ENOMEM)) as [->|Hne].
  - rewrite Pos.eqb_refl in Hfinal. discriminate.
  - eexists. eexists. split; [reflexivity|]. cbn.
    rewrite length_app. cbn. lia.
Qed.

(** X4.  The loop of [psutil_get_proc_list] ends at the first round that
    is not a retry.  A retried round makes four calls (the sizing query,
    [malloc], the query with the buffer, [free]), three of them answered
    by the environment.  When the rounds that start at the answers 0, 3,
    ..., 3 (n - 1) after the entry are retried and the round that starts
    at the answer 3 n is not, the function returns in that round: it has
    made more than 4 n and at most 4 n + 4 calls, [free] included, of
    which more than 3 n and at most 3 n + 3 are queries and [malloc]s;
    [n] rounds are not enough. *)
Theorem psutil_get_proc_list_ends_after_retries (n : nat) :
  forall (fuel : nat) (w : world),
  (forall i, (i < n)%nat -> retries_at E (clock w + 3 * i) = true) ->
  retries_at E (clock w + 3 * n) = false ->
  (n < fuel)%nat ->
  exists r w',
    psutil_get_proc_list E fuel w = (Returned r, w') /\
    (length (trace w) + 4 * n < length (trace w')
     <= length (trace w) + 4 * n + 4)%nat /\
    (clock w + 3 * n < clock w' <= clock w + 3 * n + 3)%nat /\
    fst (psutil_get_proc_list E n w) = OutOfFuel.
Proof.
  induction n as [|n IH]; intros fuel w Hretries Hfinal Hfuel.
  - destruct fuel as [|fuel]; [lia|].
    rewrite Nat.mul_0_r, Nat.add_0_r in Hfinal.
    destruct (psutil_get_proc_list_final_round fuel w Hfinal)
      as (r & w' & Hrun & Hclock & Htrace).
    exists r, w'. split; [exact Hrun|].
    split; [lia|]. split; [lia | reflexivity].
  - destruct fuel as [|fuel]; [lia|].
    pose proof (Hretries 0%nat ltac:(lia)) as Hfirst.
    rewrite Nat.mul_0_r, Nat.add_0_r in Hfirst.
    destruct (psutil_get_proc_list_retried_round w Hfirst)
      as (w2 & Hclock2 & _ & Htrace2 & Hnext).
    destruct (IH fuel w2) as (r & w' & Hrun & Htrace & Hclock & Hshort).
    + intros i Hi. rewrite Hclock2.
      replace (3 + clock w + 3 * i)%nat with (clock w + 3 * S i)%nat by lia.
      apply Hretries. lia.
    + rewrite Hclock2.
      replace (3 + clock w + 3 * n)%nat with (clock w + 3 * S n)%nat by lia.
      exact Hfinal.
    + lia.
    + exists r, w'. rewrite !Hnext. split; [exact Hrun|].
      split; [lia|]. split; [lia | exact Hshort].
Qed.

End ProcListMore.

(** The table grows once: one retried round, and the return in the
    second, after seven calls. *)
Lemma psutil_get_proc_list_ends_after_retries_witness :
  exists r w',
    psutil_get_proc_list (P := freebsd_amd64) (scripted growing_table) 2
      initial_world = (Returned r, w') /\
    (length (trace initial_world) + 4 * 1 < length (trace w')
     <= length (trace initial_world) + 4 * 1 + 4)%nat /\
    (clock initial_world + 3 * 1 < clock w'
     <= clock initial_world + 3 * 1 + 3)%nat /\
    fst (psutil_get_proc_list (P := freebsd_amd64) (scripted growing_table) 1
           initial_world) = OutOfFuel.
Proof.
  apply (psutil_get_proc_list_ends_after_retries (P := freebsd_amd64)
           (scripted growing_table) 1 2 initial_world).
  - intros i Hi. replace i with 0%nat by lia. reflexivity.
  - reflexivity.
  - lia.
Defined.

(** ** Further properties of psutil_get_cmd_args and psutil_get_cmdline *)

Section CmdLineMore.
Context {P : Platform} (E : environment).

(** [psutil_get_cmd_args] by the answers of the environment: the query for
    the size limit at the time [t], [malloc] at [t + 1], the query for the
    arguments at [t + 2]. *)
Lemma psutil_get_cmd_args_cases (pid : Z) (argsize : N) (w : world) :
  let t := clock w in
  let buf := fresh (dom (heap w)) in
  psutil_get_cmd_args E pid argsize w =
  match env_argmax E t with
  | SysctlErr e =>
      ((None, argsize),
       advance w 1 (heap w) (Z.pos e) [EvSysctlArgMax (SysctlErr e)])
  | SysctlOk argmax =>
      let size := C.to_size_t (C.to_int argmax) in
      let ev1 := EvSysctlArgMax (SysctlOk argmax) in
      match env_malloc E (S t) size with
      | None =>
          ((None, argsize),
           {| clock := 2 + t; heap := heap w; errno := Z.pos ENOMEM;
              py_err := Some PyMemoryError;
              trace := trace w ++ [ev1; EvMalloc size None] |})
      | Some junk =>
          let r := env_proc_args E (S (S t)) (C.to_int pid) in
          let ev2 := EvMalloc size (Some buf) in
          let ev3 := EvSysctlProcArgs (C.to_int pid) (Some buf) size r in
          match r with
          | SysctlErr e =>
              ((None, argsize),
               advance w 3 (heap w) (Z.pos e) [ev1; ev2; ev3; EvFree buf])
          | SysctlOk data =>
              if (N.of_nat (length data) <=? size)%N
              then
                ((Some buf, N.of_nat (length data)),
                 advance w 3
                   (<[buf := data ++ drop (length data)
                                       (resize (N.to_nat size) x00 junk)]>
                      (heap w))
                   (errno w) [ev1; ev2; ev3])
              else
                ((None, argsize),
                 advance w 3 (heap w) (Z.pos ENOMEM)
                   [ev1; ev2; ev3; EvFree buf])
          end
      end
  end.
Proof.
  cbv zeta. unfold psutil_get_cmd_args. run_world.
  destruct (env_argmax E (clock w)) as [argmax|e]; cbn.
  2:{ reflexivity. }
  destruct (env_malloc E (S (clock w)) _) as [junk|]; cbn.
  2:{ rewrite <- !app_assoc. reflexivity. }
  destruct (env_proc_args E (S (S (clock w))) (C.to_int pid))
    as [data|e]; cbn.
  2:{ unfold advance. cbn.
      rewrite delete_insert_id by apply fresh_block_free.
      rewrite <- !app_assoc. reflexivity. }
  destruct (N.leb_spec (N.of_nat (length data))
              (C.to_size_t (C.to_int argmax))) as [Hle|Hgt]; cbn.
  - unfold advance. cbn.
    rewrite alter_insert_eq, take_ge by lia.
    rewrite <- !app_assoc. reflexivity.
  - unfold advance. cbn.
    rewrite alter_insert_eq, delete_insert_id by apply fresh_block_free.
    rewrite <- !app_assoc. reflexivity.
Qed.

(** X5.  What [psutil_get_cmd_args] hands out.  With NULL, the length of
    the caller is not written, the heap is as before the call, and the
    only exception it may have raised is [MemoryError].  With a block, the
    block is new in the heap, the error indicator is untouched, the length
    written is not more than the size of the block, and the bytes of the
    block up to that length are the arguments the kernel answered. *)
Theorem psutil_get_cmd_args_postcondition (pid : Z) (argsize : N)
  (w : world) :
  let '((procargs, size), w') := psutil_get_cmd_args E pid argsize w in
  match procargs with
  | None =>
      size = argsize /\ heap w' = heap w /\
      (py_err w' = py_err w \/ py_err w' = Some PyMemoryError)
  | Some buf =>
      heap w !! buf = None /\ py_err w' = py_err w /\
      exists block,
        heap w' = <[buf := block]> (heap w) /\
        (size <= N.of_nat (length block))%N /\
        env_proc_args E (S (S (clock w))) (C.to_int pid)
        = SysctlOk (take (N.to_nat size) block)
  end.
Proof.
  rewrite psutil_get_cmd_args_cases. cbv zeta.
  destruct (env_argmax E (clock w)) as [argmax|e].
  2:{ cbn. auto. }
  destruct (env_malloc E (S (clock w)) _) as [junk|].
  2:{ cbn. auto. }
  destruct (env_proc_args E (S (S (clock w))) (C.to_int pid))
    as [data|e] eqn:Hargs.
  2:{ cbn. auto. }
  destruct (N.leb_spec (N.of_nat (length data))
              (C.to_size_t (C.to_int argmax))) as [Hle|Hgt].
  2:{ cbn. auto. }
  cbn. split; [apply fresh_block_free|]. split; [reflexivity|].
  eexists. split; [reflexivity|].
  rewrite length_app, length_drop, length_resize.
  split; [lia|].
  rewrite Nat2N.id, take_app_length. reflexivity.
Qed.

(** X6.  Whenever [psutil_get_cmdline] returns, with a list or with NULL,
    the heap is as before the call: the block of the arguments is freed on
    the normal exit and on the error exit, and none is left from a failed
    fetch. *)
Theorem psutil_get_cmdline_frees_block (pid : Z) (w : world) :
  match psutil_get_cmdline E pid w with
  | (Returned _, w') => heap w' = heap w
  | (_, _) => True
  end.
Proof.
  unfold psutil_get_cmdline.
  unfold mbind at 1. unfold world_bind at 1.
  rewrite Py_BuildValue_list_spec.
  destruct (env_py_list E (clock w));
    (destruct (Z.ltb_spec pid 0) as [Hlt|Hge]; [reflexivity|]);
    unfold mbind at 1; unfold world_bind at 1;
    rewrite psutil_get_cmd_args_cases; cbv zeta; cbn [clock heap];
    (destruct (env_argmax E (clock w)) as [argmax|e];
       [|cbn; first [reflexivity | exact I]]);
    (destruct (env_malloc E (S (clock w)) _) as [junk|];
       [|cbn; first [reflexivity | exact I]]);
    (destruct (env_proc_args E (S (S (clock w))) (C.to_int pid))
       as [data|e];
       [|cbn; first [reflexivity | exact I]]);
    (destruct (N.leb_spec (N.of_nat (length data))
                 (C.to_size_t (C.to_int argmax))) as [Hle|Hgt];
       [|cbn; first [reflexivity | exact I]]);
    run_world; unfold advance; cbn;
    try rewrite lookup_insert_eq; cbn;
    destruct (0 <? N.of_nat (length data))%N; cbn;
    try exact I;
    try (apply delete_insert_id, fresh_block_free).
  destruct (decode_arguments E _ _).1; cbn;
    try exact I; apply delete_insert_id, fresh_block_free.
Qed.

(** X7.  When the runtime built the list and one of the two kernel queries
    of the fetch fails, for a [pid] that is not negative,
    [psutil_get_cmdline] returns NULL and leaves the error indicator of
    Python as it was: the caller gets NULL with no exception raised.  The
    heap is as before the call. *)
Theorem psutil_get_cmdline_kernel_failure (pid : Z) (w : world) :
  (0 <= pid)%Z ->
  env_py_list E (clock w) = true ->
  fetch_fails_in_kernel E pid (clock w) ->
  fst (psutil_get_cmdline E pid w) = Returned None /\
  py_err (snd (psutil_get_cmdline E pid w)) = py_err w /\
  heap (snd (psutil_get_cmdline E pid w)) = heap w.
Proof.
  intros Hpid Hlist Hfail. unfold fetch_fails_in_kernel in Hfail.
  assert (Hrun : exists w', psutil_get_cmdline E pid w = (Returned None, w')
                            /\ py_err w' = py_err w /\ heap w' = heap w).
  { unfold psutil_get_cmdline.
    unfold mbind at 1. unfold world_bind at 1.
    rewrite Py_BuildValue_list_spec, Hlist.
    destruct (Z.ltb_spec pid 0) as [Hlt|_]; [lia|].
    unfold mbind at 1. unfold world_bind at 1.
    rewrite psutil_get_cmd_args_cases. cbv zeta.
    destruct (env_argmax E (clock w)) as [argmax|e].
    2:{ eexists. split; [reflexivity|]. cbn. auto. }
    cbv zeta in Hfail. destruct Hfail as [[junk Hmalloc] Hargs].
    rewrite Hmalloc.
    destruct (env_proc_args E (S (S (clock w))) (C.to_int pid)) as [data|e].
    2:{ eexists. split; [reflexivity|]. cbn. auto. }
    cbn in Hargs.
    destruct (N.leb_spec (N.of_nat (length data))
                (C.to_size_t (C.to_int argmax))) as [Hle|Hgt]; [lia|].
    eexists. split; [reflexivity|]. cbn. auto. }
  destruct Hrun as (w' & -> & Herr & Hheap). cbn. auto.
Qed.

End CmdLineMore.

Lemma psutil_get_cmdline_kernel_failure_witness :
  let E := with_args 16 (SysctlErr 1%positive) (bytes "junk") in
  fst (psutil_get_cmdline (P := freebsd_amd64) E 7 initial_world)
  = Returned None /\
  py_err (snd (psutil_get_cmdline (P := freebsd_amd64) E 7 initial_world))
  = py_err initial_world /\
  heap (snd (psutil_get_cmdline (P := freebsd_amd64) E 7 initial_world))
  = heap initial_world.
Proof.
  apply (psutil_get_cmdline_kernel_failure (P := freebsd_amd64)
           (with_args 16 (SysctlErr 1%positive) (bytes "junk")) 7
           initial_world).
  - lia.
  - reflexivity.
  - cbn. split; [eexists; reflexivity | exact I].
Defined.

(** ** Further properties of the scan *)

Section ScanMore.
Context (E : environment).

(** More fuel does not change a scan that ended. *)
Lemma scan_loop_more_fuel (argstr : list byte) (argsize : N)
  (fuel extra : nat) :
  forall (pos : Z) (py_retlist : list (list byte)) (reads : list Z),
  fst (scan_loop E fuel argstr argsize pos py_retlist reads) <> ScanFuel ->
  scan_loop E (fuel + extra) argstr argsize pos py_retlist reads
  = scan_loop E fuel argstr argsize pos py_retlist reads.
Proof.
  induction fuel as [|fuel IH]; intros pos py_retlist reads Hend.
  { cbn in Hend. contradiction. }
  cbn [Nat.add scan_loop] in *.
  destruct (C.to_size_t pos <? argsize)%N; [|reflexivity].
  destruct (c_string_at argstr pos) as [[s|] r1]; [|reflexivity].
  destruct (negb (env_py_string E s)); [reflexivity|].
  destruct (negb (env_py_append E py_retlist s)); [reflexivity|].
  apply IH, Hend.
Qed.

(** X9.  The scan loop ends: on a block shorter than 2^31 bytes it makes
    at most [argsize] iterations, since each one moves [pos] forward.  The
    result of [decode_arguments] is that of the loop run with any larger
    bound on its iterations. *)
Theorem scan_loop_ends_within_argsize (argstr : list byte) (argsize : N)
  (fuel : nat) :
  (Z.of_nat (length argstr) < 2 ^ 31)%Z ->
  (N.to_nat argsize < fuel)%nat ->
  scan_loop E fuel argstr argsize 0 [] []
  = decode_arguments E argstr argsize /\
  fst (decode_arguments E argstr argsize) <> ScanFuel.
Proof.
  intros Hlen Hfuel.
  pose proof (decode_arguments_total E argstr argsize Hlen) as Htotal.
  split; [|exact Htotal].
  unfold decode_arguments in *.
  replace fuel
    with (S (N.to_nat argsize) + (fuel - S (N.to_nat argsize)))%nat by lia.
  apply scan_loop_more_fuel, Htotal.
Qed.

Lemma terminated_app (args1 args2 : list (list byte)) :
  terminated (args1 ++ args2) = terminated args1 ++ terminated args2.
Proof. unfold terminated. rewrite map_app, concat_app. reflexivity. Qed.

(** What [split_null] gives: the blob is its strings, each terminated, and
    then its tail; no string and no tail holds a null byte. *)
Lemma split_null_spec (blob : list byte) :
  blob = terminated (fst (split_null blob)) ++ snd (split_null blob) /\
  Forall null_free (fst (split_null blob)) /\
  null_free (snd (split_null blob)).
Proof.
  induction blob as [|b blob IH]; cbn [split_null].
  { repeat split; constructor. }
  destruct (split_null blob) as [args tail]. cbn [fst snd] in IH.
  destruct IH as (Hblob & Hargs & Htail).
  destruct (Byte.eqb b x00) eqn:Hb.
  - apply Byte.byte_dec_bl in Hb. subst b. cbn [fst snd].
    split; [|split; [constructor; [constructor | exact Hargs] | exact Htail]].
    rewrite Hblob at 1. reflexivity.
  - apply Byte.eqb_false in Hb.
    destruct args as [|s args]; cbn [fst snd].
    + split; [|split; [constructor | constructor; assumption]].
      rewrite Hblob at 1. reflexivity.
    + apply Forall_cons in Hargs as [Hs Hargs].
      split; [|split; [constructor; [constructor; assumption | exact Hargs]
                      | exact Htail]].
      rewrite Hblob at 1. reflexivity.
Qed.

(** A blob that is empty or ends with a null byte has no tail. *)
Lemma split_null_no_tail (blob : list byte) :
  blob = [] \/ last blob = Some x00 ->
  snd (split_null blob) = [].
Proof.
  induction blob as [|b blob IH]; intros Hend; [reflexivity|].
  destruct Hend as [Hnil|Hlast]; [discriminate|].
  cbn [split_null].
  pose proof (split_null_spec blob) as (Hblob & _ & _).
  destruct (split_null blob) as [args tail]. cbn [fst snd] in *.
  destruct blob as [|b' blob'].
  - cbn in Hlast. injection Hlast as ->. cbn in Hblob.
    destruct args; [|destruct l; discriminate].
    cbn in Hblob. subst tail. reflexivity.
  - assert (Htail : tail = []) by (apply IH; right; exact Hlast).
    subst tail.
    destruct (Byte.eqb b x00); [reflexivity|].
    destruct args as [|s args]; [discriminate | reflexivity].
Qed.

(** X10.  The decoder cuts at the null bytes.  A blob that is empty or
    ends with a null byte decodes, over its own length, to the strings
    between its null bytes, whatever the block holds after the blob; these
    strings, each followed by a null byte, are the blob again.  (The
    runtime builds and appends every object; the block is shorter than
    2^31 bytes.) *)
Theorem decode_arguments_splits_at_nulls (blob rest : list byte) :
  blob = [] \/ last blob = Some x00 ->
  (forall s, env_py_string E s = true) ->
  (forall l s, env_py_append E l s = true) ->
  (Z.of_nat (length (blob ++ rest)) < 2 ^ 31)%Z ->
  decode_arguments E (blob ++ rest) (N.of_nat (length blob))
  = (ScanDone (fst (split_null blob)) (Z.of_nat (length blob)),
     scan_reads 0 (fst (split_null blob))) /\
  terminated (fst (split_null blob)) = blob.
Proof.
  intros Hend Hstr Happ Hlen.
  pose proof (split_null_spec blob) as (Hblob & Hnull & _).
  rewrite (split_null_no_tail blob Hend), app_nil_r in Hblob.
  split; [|symmetry; exact Hblob].
  remember (fst (split_null blob)) as args eqn:Hargs. clear Hargs Hend.
  subst blob.
  apply decode_arguments_terminated.
  - exact Hnull.
  - apply Forall_forall. intros s _. apply Hstr.
  - exact Happ.
  - exact Hlen.
Qed.

(** The scan stops with an error at the first string that the runtime
    does not build. *)
Lemma decode_arguments_refused (before after : list (list byte))
  (s rest : list byte) :
  Forall null_free before -> null_free s ->
  Forall (fun s => env_py_string E s = true) before ->
  env_py_string E s = false ->
  (forall l s, env_py_append E l s = true) ->
  let blob := terminated (before ++ s :: after) in
  (Z.of_nat (length (blob ++ rest)) < 2 ^ 31)%Z ->
  fst (decode_arguments E (blob ++ rest) (N.of_nat (length blob)))
  = ScanError.
Proof.
  intros Hnull Hs Hstr Hrefused Happ blob Hlen. subst blob.
  pose proof (length_terminated_ge before) as Hge.
  pose proof int_below_size_t as Hint.
  assert (Hblob : terminated (before ++ s :: after) ++ rest
                  = terminated before
                    ++ s ++ x00 :: terminated after ++ rest).
  { rewrite terminated_app. unfold terminated at 2. cbn [map concat].
    fold (terminated after). rewrite <- !app_assoc. reflexivity. }
  assert (Hsize : length (terminated (before ++ s :: after))
                  = (length (terminated before) + (length s + 1
                     + length (terminated after)))%nat).
  { rewrite terminated_app, length_app, (length_terminated_cons s after).
    reflexivity. }
  rewrite length_app, Hsize in Hlen.
  unfold decode_arguments. rewrite Nat2N.id, Hsize, Hblob.
  replace (S (length (terminated before)
              + (length s + 1 + length (terminated after))))
    with (length before
          + S (length (terminated before) - length before
               + (length s + 1 + length (terminated after))))%nat by lia.
  rewrite scan_loop_terminated_start;
    [| assumption | assumption | assumption
     | rewrite !length_app; cbn [length]; rewrite length_app; lia | lia ].
  cbn [scan_loop].
  assert (Hpos : C.to_size_t (Z.of_nat (length (terminated before)))
                 = N.of_nat (length (terminated before)))
    by (rewrite to_size_t_nonneg by lia; lia).
  destruct (N.ltb_spec (C.to_size_t (Z.of_nat (length (terminated before))))
              (N.of_nat (length (terminated before)
                         + (length s + 1 + length (terminated after)))))
    as [_|Hge']; [|lia].
  rewrite (c_string_at_terminated (terminated before) s _ Hs).
  rewrite Hrefused. reflexivity.
Qed.

End ScanMore.

(** ** The fetch and the scan together *)

Section FetchAndScan.
Context {P : Platform} (E : environment).

(** The block that the fetch hands out has the size asked of [malloc]. *)
Lemma length_fetched_block (data junk : list byte) (size : nat) :
  (length data <= size)%nat ->
  length (data ++ drop (length data) (resize size x00 junk)) = size.
Proof.
  intros Hfit. rewrite length_app, length_drop, length_resize. lia.
Qed.

(** X8.  The fetch and the scan compose.  For a [pid] that is not
    negative, when the kernel reports the limit [argmax], [malloc] gives a
    block, and the kernel holds for the process the strings [args], each
    with its terminating null byte and within the limit, then
    [psutil_get_cmdline] returns exactly [args], whatever the fresh block
    held; it raises nothing and the heap is as before the call.  (The
    runtime builds and appends every object, the list first.) *)
Theorem psutil_get_cmdline_returns_arguments (pid : Z) (w : world)
  (argmax : Z) (junk : list byte) (args : list (list byte)) :
  (0 <= pid)%Z ->
  (0 <= argmax < 2 ^ 31)%Z ->
  Forall null_free args ->
  env_py_list E (clock w) = true ->
  env_argmax E (clock w) = SysctlOk argmax ->
  env_malloc E (S (clock w)) (C.to_size_t (C.to_int argmax)) = Some junk ->
  env_proc_args E (S (S (clock w))) (C.to_int pid)
  = SysctlOk (terminated args) ->
  (Z.of_nat (length (terminated args)) <= argmax)%Z ->
  Forall (fun s => env_py_string E s = true) args ->
  (forall l s, env_py_append E l s = true) ->
  fst (psutil_get_cmdline E pid w) = Returned (Some args) /\
  heap (snd (psutil_get_cmdline E pid w)) = heap w /\
  py_err (snd (psutil_get_cmdline E pid w)) = py_err w.
Proof.
  intros Hpid Hmax Hnull Hlist Hargmax Hmalloc Hargs Hfit Hstr Happ.
  pose proof int_below_size_t as Hint.
  assert (Hsize : C.to_size_t (C.to_int argmax) = Z.to_N argmax).
  { rewrite to_int_small by lia. apply to_size_t_nonneg. lia. }
  rewrite (psutil_get_cmdline_scanned E pid w argmax junk (terminated args)
             args (Z.of_nat (length (terminated args))));
    try assumption.
  - cbn. auto.
  - rewrite Hsize. lia.
  - rewrite Hsize.
    destruct (N.ltb_spec 0 (N.of_nat (length (terminated args))))
      as [Hpos|Hzero].
    + rewrite decode_arguments_terminated; try assumption; [reflexivity|].
      rewrite length_fetched_block by lia. lia.
    + destruct args as [|s args];
        [|rewrite (length_terminated_cons s args) in Hzero; lia].
      reflexivity.
Qed.

(** X11.  When the runtime built the list and then does not build the
    object for one of the strings, [psutil_get_cmdline] returns NULL with
    the exception of the runtime pending, and has freed the block: the
    heap is as before the call.  The strings before the refused one do not
    reach the caller. *)
Theorem psutil_get_cmdline_runtime_refusal (pid : Z) (w : world)
  (argmax : Z) (junk s : list byte) (before after : list (list byte)) :
  (0 <= pid)%Z ->
  (0 <= argmax < 2 ^ 31)%Z ->
  Forall null_free before -> null_free s ->
  env_py_list E (clock w) = true ->
  env_argmax E (clock w) = SysctlOk argmax ->
  env_malloc E (S (clock w)) (C.to_size_t (C.to_int argmax)) = Some junk ->
  env_proc_args E (S (S (clock w))) (C.to_int pid)
  = SysctlOk (terminated (before ++ s :: after)) ->
  (Z.of_nat (length (terminated (before ++ s :: after))) <= argmax)%Z ->
  Forall (fun s => env_py_string E s = true) before ->
  env_py_string E s = false ->
  (forall l s, env_py_append E l s = true) ->
  fst (psutil_get_cmdline E pid w) = Returned None /\
  py_err (snd (psutil_get_cmdline E pid w)) = Some PyRaised /\
  heap (snd (psutil_get_cmdline E pid w)) = heap w.
Proof.
  intros Hpid Hmax Hnull Hs Hlist Hargmax Hmalloc Hargs Hfit Hstr Hrefused
    Happ.
  pose proof int_below_size_t as Hint.
  assert (Hsize : C.to_size_t (C.to_int argmax) = Z.to_N argmax).
  { rewrite to_int_small by lia. apply to_size_t_nonneg. lia. }
  set (data := terminated (before ++ s :: after)) in *.
  assert (Hdata : (0 < length data)%nat).
  { subst data. rewrite terminated_app, length_app,
      (length_terminated_cons s after). lia. }
  assert (Hscan : fst (decode_arguments E
                         (data ++ drop (length data)
                                    (resize (N.to_nat (Z.to_N argmax)) x00
                                       junk))
                         (N.of_nat (length data))) = ScanError).
  { apply decode_arguments_refused; try assumption.
    fold data. rewrite length_fetched_block by lia. lia. }
  assert (Hrun : exists w',
             psutil_get_cmdline E pid w = (Returned None, w') /\
             py_err w' = Some PyRaised /\ heap w' = heap w).
  { unfold psutil_get_cmdline.
    unfold mbind at 1. unfold world_bind at 1.
    rewrite Py_BuildValue_list_spec, Hlist.
    destruct (Z.ltb_spec pid 0) as [Hlt|_]; [lia|].
    unfold mbind at 1. unfold world_bind at 1.
    rewrite (psutil_get_cmd_args_success E pid 0 w argmax junk data)
      by (try assumption; rewrite Hsize; lia).
    run_world. unfold advance. cbn.
    rewrite lookup_insert_eq. cbn.
    destruct (N.ltb_spec 0 (N.of_nat (length data))) as [_|Hzero]; [|lia].
    rewrite Hsize, Hscan. cbn.
    eexists. split; [reflexivity|]. cbn. split; [reflexivity|].
    apply delete_insert_id, fresh_block_free. }
  destruct Hrun as (w' & -> & Herr & Hheap). cbn. auto.
Qed.

End FetchAndScan.

(** ** Instances of the further properties *)

Lemma scan_loop_ends_within_argsize_witness :
  scan_loop idle 10 (bytes "ls" ++ [x00]) 3 0 [] []
  = decode_arguments idle (bytes "ls" ++ [x00]) 3 /\
  fst (decode_arguments idle (bytes "ls" ++ [x00]) 3) <> ScanFuel.
Proof.
  apply (scan_loop_ends_within_argsize idle (bytes "ls" ++ [x00]) 3 10).
  - reflexivity.
  - vm_compute. lia.
Defined.

(** Two null bytes in a row hold an empty string between them. *)
Lemma decode_arguments_splits_at_nulls_witness :
  let blob := bytes "ls" ++ [x00; x00] ++ bytes "-l" ++ [x00] in
  decode_arguments idle (blob ++ bytes "junk") (N.of_nat (length blob))
  = (ScanDone (fst (split_null blob)) (Z.of_nat (length blob)),
     scan_reads 0 (fst (split_null blob))) /\
  terminated (fst (split_null blob)) = blob.
Proof.
  apply (decode_arguments_splits_at_nulls idle
           (bytes "ls" ++ [x00; x00] ++ bytes "-l" ++ [x00]) (bytes "junk")).
  - right. reflexivity.
  - reflexivity.
  - reflexivity.
  - reflexivity.
Defined.

Lemma psutil_get_cmdline_returns_arguments_witness :
  let args := [bytes "ls"; bytes "-l"] in
  let E := with_args 16 (SysctlOk (terminated args)) (bytes "junk") in
  fst (psutil_get_cmdline (P := freebsd_amd64) E 7 initial_world)
  = Returned (Some args) /\
  heap (snd (psutil_get_cmdline (P := freebsd_amd64) E 7 initial_world))
  = heap initial_world /\
  py_err (snd (psutil_get_cmdline (P := freebsd_amd64) E 7 initial_world))
  = py_err initial_world.
Proof.
  apply (psutil_get_cmdline_returns_arguments (P := freebsd_amd64)
           (with_args 16 (SysctlOk (terminated [bytes "ls"; bytes "-l"]))
              (bytes "junk"))
           7 initial_world 16 (bytes "junk") [bytes "ls"; bytes "-l"]).
  - lia.
  - split; [lia | reflexivity].
  - solve_null_free.
  - reflexivity.
  - reflexivity.
  - reflexivity.
  - reflexivity.
  - vm_compute. discriminate.
  - repeat constructor.
  - reflexivity.
Defined.

(** The second of three arguments holds the byte 0xff. *)
Lemma psutil_get_cmdline_runtime_refusal_witness :
  let data := terminated ([bytes "ls"] ++ [xff] :: [bytes "x"]) in
  let E := strict_runtime 16 (SysctlOk data) (bytes "junk") in
  fst (psutil_get_cmdline (P := freebsd_amd64) E 7 initial_world)
  = Returned None /\
  py_err (snd (psutil_get_cmdline (P := freebsd_amd64) E 7 initial_world))
  = Some PyRaised /\
  heap (snd (psutil_get_cmdline (P := freebsd_amd64) E 7 initial_world))
  = heap initial_world.
Proof.
  apply (psutil_get_cmdline_runtime_refusal (P := freebsd_amd64)
           (strict_runtime 16
              (SysctlOk (terminated ([bytes "ls"] ++ [xff] :: [bytes "x"])))
              (bytes "junk"))
           7 initial_world 16 (bytes "junk") [xff] [bytes "ls"]
           [bytes "x"]).
  - lia.
  - split; [lia | reflexivity].
  - solve_null_free.
  - solve_null_free.
  - reflexivity.
  - reflexivity.
  - reflexivity.
  - reflexivity.
  - vm_compute. discriminate.
  - repeat constructor.
  - reflexivity.
  - reflexivity.
Defined.
